(** * The NationalMap tile downloader (create_nationalmap_mbtiles.py)

    A shallow embedding of the downloader script: the slippy-tile index
    computation [deg2num], the per-tile fetch loop [download_wms_tile], the
    SQLite tile archive (tables [metadata] and [tiles] with the unique index
    on (zoom_level, tile_column, tile_row)) and the orchestrating function
    [create_nationalmap_mbtiles].

    Conventions of the embedding:
    - Python [int] is [Z]; Python [float] is the kernel's binary64 [float],
      whose [+], [*] and [/] round exactly as Python's do;
    - [math.tan] and [math.asinh] belong to the C library and are taken as
      parameters; a table of their values at the bounds constants of the
      script serves the runs that are evaluated;
    - the network ([requests.get]), the random generator
      ([random.uniform], a rational here) and the scheduling of the thread
      pool are an explicit [environment], so that every statement
      quantified over environments holds for every server behaviour and
      every interleaving of the workers;
    - effects are recorded in a log of [event]s;
    - the archive is modelled with the transaction semantics of Python's
      [sqlite3] module: CREATE statements are committed as they run, an
      INSERT opens a transaction that only [conn.commit()] makes durable,
      and [conn.close()] drops an open transaction.  An archive file that
      exists is taken to carry the schema. *)

From Stdlib Require Import ZArith List Bool Lia QArith String Floats.
From Stdlib Require Import DecimalString Permutation.
Import ListNotations.

Set Warnings "-inexact-float".

Local Open Scope Z_scope.

(** ** Coordinate engine *)

Module Coordinate.

(** [math.pi] and the factor of [math.radians]. *)
Definition pi : float := 0x1.921fb54442d18p+1%float.
Definition radians (x : float) : float := (x * (pi / 180))%float.

(** [2.0 ** zoom] for an integer [zoom]: a power of two, exact in binary64;
    Python raises OverflowError above the largest exponent. *)
Definition pow2 (zoom : Z) : option float :=
  if 1023 <? zoom then None else Some (Z.ldexp 1%float zoom).

(** [int(f)]: truncation toward zero; ValueError on nan, OverflowError on
    an infinity. *)
Definition int_of_float (f : float) : option Z :=
  match Prim2SF f with
  | S754_zero _ => Some 0
  | S754_finite s m e =>
      let magnitude :=
        if 0 <=? e then Z.pos m * 2 ^ e else Z.pos m / 2 ^ (- e) in
      Some (if s then - magnitude else magnitude)
  | S754_infinity _ => None
  | S754_nan => None
  end.

(** The mathematical floor of a finite float ([math.floor]); the script never
    calls it, the specification speaks of it. *)
Definition floor_of_float (f : float) : option Z :=
  match Prim2SF f with
  | S754_zero _ => Some 0
  | S754_finite s m e =>
      let signed := if s then Z.neg m else Z.pos m in
      Some (if 0 <=? e then signed * 2 ^ e else signed / 2 ^ (- e))
  | S754_infinity _ => None
  | S754_nan => None
  end.

(** The sign bit of a float that is not nan. *)
Definition negative (f : float) : bool :=
  match Prim2SF f with
  | S754_zero s => s
  | S754_finite s _ _ => s
  | S754_infinity s => s
  | S754_nan => false
  end.

Section Libm.

(** [math.tan] and [math.asinh]. *)
Variables tan asinh : float -> float.

(** The two float values whose integer parts are the tile indices. *)
Definition xtile_value (lon_deg n : float) : float :=
  ((lon_deg + 180) / 360 * n)%float.

Definition ytile_value (lat_deg n : float) : float :=
  let lat_rad := radians lat_deg in
  ((1 - asinh (tan lat_rad) / pi) / 2 * n)%float.

Definition deg2num (lat_deg lon_deg : float) (zoom : Z) : option (Z * Z) :=
  match pow2 zoom with
  | None => None
  | Some n =>
      match int_of_float (xtile_value lon_deg n) with
      | None => None
      | Some xtile =>
          match int_of_float (ytile_value lat_deg n) with
          | None => None
          | Some ytile => Some (xtile, ytile)
          end
      end
  end.

End Libm.

(** The C library at the arguments the script reaches with its bounds
    constants (and at 0): the binary64 results of [math.tan] on
    [math.radians] of -56.33, -25.19, -47.5 and -34.0, and of [math.asinh]
    on those tangents.  Outside the table the result is nan, on which
    [int] raises. *)
Definition table (entries : list (float * float)) (x : float) : float :=
  match find (fun e => PrimFloat.eqb (fst e) x) entries with
  | Some e => snd e
  | None => nan
  end.

Definition libm_tan : float -> float :=
  table [ (0, 0);
          (-0x1.f75ea5689e81fp-1, -0x1.804aa372d7520p+0);
          (-0x1.c2333345b587dp-2, -0x1.e1a3b944286cdp-2);
          (-0x1.a876cd8f2a161p-1, -0x1.175ffe71f0761p+0);
          (-0x1.2fd3b0c77c70dp-1, -0x1.59592e296c626p-1) ]%float.

Definition libm_asinh : float -> float :=
  table [ (0, 0);
          (-0x1.804aa372d7520p+0, -0x1.320564af97a24p+0);
          (-0x1.e1a3b944286cdp-2, -0x1.d1722cfbed6f8p-2);
          (-0x1.175ffe71f0761p+0, -0x1.e393e5383b863p-1);
          (-0x1.59592e296c626p-1, -0x1.4368b16ec878fp-1) ]%float.

End Coordinate.

(** ** Environment, events *)

(** [bytes]. *)
Definition payload : Type := list Byte.byte.

(** What [requests.get(url, timeout=30)] does: it returns a response or
    raises. *)
Inductive http_result : Type :=
| Response (status_code : Z) (content : payload)
| NetTimeout                (* requests.exceptions.Timeout *)
| NetConnectionError        (* requests.exceptions.ConnectionError *)
| OtherException.           (* any other Exception *)

(** The world around one run.  [server] answers the request for tile
    (zoom, x, y) at a given attempt; [uniform] is the draw of
    [random.uniform(0, 1)] made there; [pick] and [ahead] resolve the
    scheduling of the thread pool at a zoom level: which of the remaining
    futures completes next, and how many further workers have already put
    their tile on the queue when the main thread drains it. *)
Record environment : Type := {
  server : Z -> Z -> Z -> Z -> http_result;
  uniform : Z -> Z -> Z -> Z -> Q;
  pick : Z -> nat -> nat;
  ahead : Z -> nat -> nat
}.

(** Observable actions.  The fetch events carry the tile and the attempt
    number they belong to. *)
Inductive event : Type :=
| HttpGet (zoom x y attempt : Z)
| Sleep (zoom x y attempt : Z) (wait_time : Q)
| LogRateLimited (zoom x y attempt : Z)
| LogHttpStatus (status_code zoom x y : Z)
| LogNetworkError (zoom x y attempt : Z)
| LogError (zoom x y : Z)
| SqlCreateSchema
| SqlInsertMetadata (name value : string)
| SqlInsertTile (z x tms_y : Z) (data : payload)
| LogDuplicate (z x tms_y : Z)
| SqlCommit
| SqlClose.

(** [range(lo, hi)]. *)
Definition range (lo hi : Z) : list Z :=
  map (fun i => lo + Z.of_nat i) (seq 0 (Z.to_nat (hi - lo))).

(** ** Fetch worker *)

Definition default_max_retries : Z := 5.

Section Fetch.

Variable env : environment.
Variables zoom x y : Z.
Variable max_retries : Z.

(** The body of [for attempt in range(max_retries)], for the [todo]
    attempts that remain from [attempt] on.  The request URL is a function
    of (zoom, x, y) and the key, so the request is recorded by its tile. *)
Fixpoint attempts (todo : nat) (attempt : Z) : list event * option payload :=
  match todo with
  | O => ([], None)
  | S todo' =>
      let wait_time := (inject_Z (2 ^ attempt) + uniform env zoom x y attempt)%Q in
      match server env zoom x y attempt with
      | Response status_code content =>
          if (status_code =? 200) && (0 <? Z.of_nat (List.length content)) then
            ([HttpGet zoom x y attempt], Some content)
          else if status_code =? 429 then
            let (later, r) := attempts todo' (attempt + 1) in
            (HttpGet zoom x y attempt :: LogRateLimited zoom x y attempt
               :: Sleep zoom x y attempt wait_time :: later, r)
          else
            let (later, r) := attempts todo' (attempt + 1) in
            (HttpGet zoom x y attempt :: LogHttpStatus status_code zoom x y
               :: later, r)
      | NetTimeout | NetConnectionError =>
          let (later, r) := attempts todo' (attempt + 1) in
          (HttpGet zoom x y attempt :: LogNetworkError zoom x y attempt
             :: (if attempt <? max_retries - 1
                 then [Sleep zoom x y attempt wait_time] else []) ++ later, r)
      | OtherException =>
          ([HttpGet zoom x y attempt; LogError zoom x y], None)
      end
  end.

End Fetch.

Definition download_wms_tile (env : environment) (zoom x y : Z)
    (auth_key : string) (max_retries : Z) : list event * option payload :=
  attempts env zoom x y max_retries (Z.to_nat max_retries) 0.

(** ** Tile store *)

(** A row of the table [tiles]. *)
Record tile : Type := mk_tile {
  zoom_level : Z;
  tile_column : Z;
  tile_row : Z;
  tile_data : payload
}.

(** The content of an archive file that carries the schema: the rows of
    [metadata] and of [tiles], in insertion order. *)
Record database : Type := mk_database {
  metadata : list (string * string);
  tiles : list tile
}.

Definition empty_database : database := mk_database [] [].

(** A connection: what is committed to the file, and what the connection
    sees (its open transaction included).  Closing a connection drops the
    open transaction: the file keeps [disk]. *)
Record connection : Type := mk_connection {
  disk : database;
  work : database
}.

Definition same_key (z x r : Z) (t : tile) : bool :=
  (zoom_level t =? z) && (tile_column t =? x) && (tile_row t =? r).

(** SELECT 1 FROM tiles WHERE zoom_level=? AND tile_column=? AND tile_row=? *)
Definition select_tile (db : database) (z x r : Z) : bool :=
  existsb (same_key z x r) (tiles db).

(** Number of rows with a key, and number of rows of a zoom level. *)
Definition count_key (z x r : Z) (rows : list tile) : nat :=
  List.length (filter (same_key z x r) rows).

Definition rows_at_zoom (z : Z) (db : database) : nat :=
  List.length (filter (fun t => zoom_level t =? z) (tiles db)).

(** The unique index [tile_index]. *)
Definition unique_keys (rows : list tile) : Prop :=
  forall z x r, (count_key z x r rows <= 1)%nat.

(** INSERT INTO metadata VALUES (?, ?) *)
Definition insert_metadata (cn : connection) (name value : string) : connection :=
  mk_connection (disk cn)
    (mk_database (metadata (work cn) ++ [(name, value)]) (tiles (work cn))).

(** The guarded INSERT INTO tiles of the main thread: the unique index
    raises IntegrityError on a key that is there, which is caught and
    printed. *)
Definition insert_tile (cn : connection) (row : Z * Z * Z * payload)
    : connection * list event :=
  let '(z, x, tms_y, tile_data) := row in
  if select_tile (work cn) z x tms_y then
    (cn, [LogDuplicate z x tms_y])
  else
    (mk_connection (disk cn)
       (mk_database (metadata (work cn))
          (tiles (work cn) ++ [mk_tile z x tms_y tile_data])),
     [SqlInsertTile z x tms_y tile_data]).

(** [while tile_queue: ... tile_queue.pop(0) ...] *)
Fixpoint drain_queue (tile_queue : list (Z * Z * Z * payload)) (cn : connection)
    : connection * list event :=
  match tile_queue with
  | [] => (cn, [])
  | row :: tile_queue' =>
      let (cn1, log1) := insert_tile cn row in
      let (cn2, log2) := drain_queue tile_queue' cn1 in
      (cn2, log1 ++ log2)
  end.

(** [conn.commit()] *)
Definition commit (cn : connection) : connection :=
  mk_connection (work cn) (work cn).

(** ** Orchestrator *)

Record bounds : Type := mk_bounds {
  min_lat : float;
  max_lat : float;
  min_lon : float;
  max_lon : float
}.

(** Wide bounds for zoom 1-9 (includes Chatham Islands and full coverage). *)
Definition wide_bounds : bounds :=
  mk_bounds (-56.33)%float (-25.19)%float (-180.0)%float (180.0)%float.

(** Narrow bounds for zoom 10+ (main NZ landmass). *)
Definition narrow_bounds : bounds :=
  mk_bounds (-47.5)%float (-34.0)%float (166.0)%float (179.0)%float.

(** [wide_bounds if 1 <= zoom <= 9 else narrow_bounds] *)
Definition current_bounds (zoom : Z) : bounds :=
  if (1 <=? zoom) && (zoom <=? 9) then wide_bounds else narrow_bounds.

Definition default_min_zoom : Z := 0.
Definition default_max_zoom : Z := 15.

(** [str(n)] of an integer. *)
Definition str (n : Z) : string := NilZero.string_of_int (Z.to_int n).

(** The rows of [metadata] written to a new archive.  The value of "bounds"
    is the f-string over the narrow bounds as Python prints these floats. *)
Definition metadata_rows (min_zoom max_zoom : Z) : list (string * string) :=
  [ ("name", "NZ Emergency Management");
    ("type", "baselayer");
    ("version", "1.0.0");
    ("description", "National Map Emergency Management");
    ("format", "png");
    ("bounds", "166.0,-47.5,179.0,-34.0");
    ("center", "173.0,-41.0,6");
    ("minzoom", str min_zoom);
    ("maxzoom", str max_zoom);
    ("attribution", "© NationalMap WMS Basemap Service CC BY-NC-ND 4.0") ]%string.

(** An element of [tile_list]: (zoom, x, y, auth_key). *)
Definition tile_args : Type := Z * Z * Z * string.

(** What a pool worker leaves behind: the events of its fetch, the tuple it
    appended to [tile_queue] (if any) and the value of its future. *)
Record worker_result : Type := mk_worker_result {
  fetch_log : list event;
  queued : option (Z * Z * Z * payload);
  result : bool
}.

(** State of the run between zoom levels. *)
Record run_state : Type := mk_run_state {
  conn : connection;
  log : list event;
  total_tiles_processed : Z
}.

(** What a run leaves: the archive file, the events, the printed total and
    whether the function returned (it does not when an exception escapes). *)
Record run_result : Type := mk_run_result {
  archive : database;
  events : list event;
  processed : Z;
  returned : bool
}.

Fixpoint remove_nth {A : Type} (i : nat) (l : list A) : list A :=
  match l, i with
  | [], _ => []
  | _ :: l', O => l'
  | a :: l', S i' => a :: remove_nth i' l'
  end.

(** The order in which the submitted futures complete, as the scheduler's
    picks decide it: at each step one of the futures still running. *)
Fixpoint completion_order {A : Type} (picks : nat -> nat) (step fuel : nat)
    (submitted : list A) : list A :=
  match fuel, submitted with
  | S fuel', first :: _ =>
      let i := (picks step mod List.length submitted)%nat in
      nth i submitted first
        :: completion_order picks (S step) fuel' (remove_nth i submitted)
  | _, _ => []
  end.

Section Run.

Variables tan asinh : float -> float.
Variable env : environment.

(** Lines 134-140: the clamped tile index rectangle
    (x_min, x_max, y_min, y_max) of a zoom level within bounds [b].  For a
    negative zoom [2**zoom - 1] is a float and [range] raises TypeError. *)
Definition rect_of_bounds (b : bounds) (zoom : Z) : option (Z * Z * Z * Z) :=
  match Coordinate.deg2num tan asinh (min_lat b) (min_lon b) zoom with
  | None => None
  | Some (x_min, y_max) =>
      match Coordinate.deg2num tan asinh (max_lat b) (max_lon b) zoom with
      | None => None
      | Some (x_max, y_min) =>
          if zoom <? 0 then None else
          Some (Z.max 0 x_min, Z.min (2 ^ zoom - 1) x_max,
                Z.max 0 y_min, Z.min (2 ^ zoom - 1) y_max)
      end
  end.

Definition tile_rect (zoom : Z) : option (Z * Z * Z * Z) :=
  rect_of_bounds (current_bounds zoom) zoom.

(** The (x, y) pairs of the two nested loops, in their order. *)
Definition tiles_in_bounds (zoom : Z) (rect : Z * Z * Z * Z)
    (auth_key : string) : list tile_args :=
  let '(x_min, x_max, y_min, y_max) := rect in
  flat_map (fun x => map (fun y => (zoom, x, y, auth_key))
                         (range y_min (y_max + 1)))
           (range x_min (x_max + 1)).

Definition tile_exists (cn : connection) (zoom x y : Z) : bool :=
  let tms_y := (2 ^ zoom - 1) - y in
  select_tile (work cn) zoom x tms_y.

Definition args_exist (cn : connection) (t : tile_args) : bool :=
  let '(zoom, x, y, _) := t in tile_exists cn zoom x y.

Definition download_tile_worker (t : tile_args) : worker_result :=
  let '(z, x, y, key) := t in
  let (fetched, tile_data) := download_wms_tile env z x y key default_max_retries in
  match tile_data with
  | Some data =>
      if (0 <? Z.of_nat (List.length data)) then
        let tms_y := (2 ^ z - 1) - y in
        mk_worker_result fetched (Some (z, x, tms_y, data)) true
      else mk_worker_result fetched None false
  | None => mk_worker_result fetched None false
  end.

Definition queue_of (finished : list worker_result)
    : list (Z * Z * Z * payload) :=
  flat_map (fun w => match queued w with Some row => [row] | None => [] end)
           finished.

(** [for future in as_completed(futures)]: [futures] are the futures not
    yet handed out, in completion order; [running] the workers (a suffix
    of the same order) that have not yet appended to [tile_queue]; [n] is
    [pbar.n].  The worker of the future handed out has finished, others
    may have as well. *)
Fixpoint as_completed (zoom : Z) (futures running : list worker_result)
    (n successful_tiles : Z) (cn : connection) (done : list event)
    : connection * list event * Z :=
  match futures with
  | [] => (cn, done, successful_tiles)
  | future :: futures' =>
      let successful_tiles :=
        if result future then successful_tiles + 1 else successful_tiles in
      let n := n + 1 in
      let must :=
        if (List.length futures <=? List.length running)%nat then 1%nat else 0%nat in
      let finished := firstn (must + ahead env zoom (Z.to_nat n)) running in
      let running' := skipn (must + ahead env zoom (Z.to_nat n)) running in
      let (cn1, inserted) := drain_queue (queue_of finished) cn in
      let committed := n mod 10 =? 0 in
      as_completed zoom futures' running' n successful_tiles
        (if committed then commit cn1 else cn1)
        (done ++ flat_map fetch_log finished ++ inserted
              ++ (if committed then [SqlCommit] else []))
  end.

(** [for zoom in range(min_zoom, max_zoom + 1)].  The boolean tells whether
    an exception ended the loop. *)
Fixpoint zoom_loop (auth_key : string) (zooms : list Z) (st : run_state)
    : run_state * bool :=
  match zooms with
  | [] => (st, false)
  | zoom :: zooms' =>
      match tile_rect zoom with
      | None => (st, true)
      | Some rect =>
          let (existing, tile_list) :=
            partition (args_exist (conn st)) (tiles_in_bounds zoom rect auth_key) in
          let tiles_to_download := Z.of_nat (List.length tile_list) in
          if tiles_to_download =? 0 then zoom_loop auth_key zooms' st
          else
            let futures :=
              map download_tile_worker
                  (completion_order (pick env zoom) 0 (List.length tile_list) tile_list) in
            let '(cn, done, successful_tiles) :=
              as_completed zoom futures futures 0 0 (conn st) (log st) in
            zoom_loop auth_key zooms'
              (mk_run_state cn done (total_tiles_processed st + successful_tiles))
      end
  end.

(** Lines 86-123: connect to the archive file, which exists ([Some]) or
    not; a new file gets the schema (the DDL statements are committed as
    they run) and the metadata rows (in a transaction left open). *)
Definition open_archive (file : option database) (min_zoom max_zoom : Z)
    : run_state :=
  let resuming := match file with Some _ => true | None => false end in
  let db := match file with Some db => db | None => empty_database end in
  let cn := mk_connection db db in
  let created := if resuming then [] else [SqlCreateSchema] in
  let rows := if resuming then [] else metadata_rows min_zoom max_zoom in
  mk_run_state
    (fold_left (fun c r => insert_metadata c (fst r) (snd r)) rows cn)
    (created ++ map (fun r => SqlInsertMetadata (fst r) (snd r)) rows)
    0.

(** The whole run.  [conn.close()] commits nothing: the file keeps what
    was committed. *)
Definition create_nationalmap_mbtiles (file : option database)
    (auth_key : string) (min_zoom max_zoom : Z) : run_result :=
  let (st, raised) :=
    zoom_loop auth_key (range min_zoom (max_zoom + 1))
      (open_archive file min_zoom max_zoom) in
  if raised
  then mk_run_result (disk (conn st)) (log st) (total_tiles_processed st) false
  else mk_run_result (disk (conn st)) (log st ++ [SqlClose])
         (total_tiles_processed st) true.

End Run.

(** ** Vocabulary of the statements *)

(** A response the fetch loop returns from: status 200 with a body. *)
Definition success (r : http_result) : bool :=
  match r with
  | Response status_code content =>
      (status_code =? 200) && (0 <? Z.of_nat (List.length content))
  | _ => false
  end.

(** An outcome after which the loop goes on to the next attempt. *)
Definition goes_on (r : http_result) : bool :=
  match r with
  | Response _ _ => negb (success r)
  | NetTimeout | NetConnectionError => true
  | OtherException => false
  end.

Definition rate_limited (r : http_result) : bool :=
  match r with
  | Response status_code _ => status_code =? 429
  | _ => false
  end.

Definition network_error (r : http_result) : bool :=
  match r with
  | NetTimeout | NetConnectionError => true
  | _ => false
  end.


Definition is_get (e : event) : bool :=
  match e with HttpGet _ _ _ _ => true | _ => false end.

(** Number of requests sent. *)
Definition gets (l : list event) : nat := List.length (filter is_get l).

(** The tile a fetch event belongs to; the SQL events belong to none. *)
Definition event_tile (e : event) : option (Z * Z * Z) :=
  match e with
  | HttpGet z x y _ | Sleep z x y _ _ | LogRateLimited z x y _
  | LogHttpStatus _ z x y | LogNetworkError z x y _ | LogError z x y =>
      Some (z, x, y)
  | _ => None
  end.

(** A server that gives every request the same outcome, under a scheduler
    that completes the futures in submission order, one at a time. *)
Definition always (r : http_result) : environment :=
  {| server := fun _ _ _ _ => r;
     uniform := fun _ _ _ _ => (1 # 2)%Q;
     pick := fun _ _ => 0%nat;
     ahead := fun _ _ => 0%nat |}.

Definition png : payload := [Byte.x89; Byte.x50; Byte.x4e; Byte.x47].

(** A server that rate-limits the first two requests for a tile and then
    answers. *)
Definition limited_twice : environment :=
  {| server := fun _ _ _ attempt =>
                 if attempt <? 2 then Response 429 [] else Response 200 png;
     uniform := fun _ _ _ _ => (1 # 2)%Q;
     pick := fun _ _ => 0%nat;
     ahead := fun _ _ => 0%nat |}.

(** The run with the C library of [Coordinate]. *)
Abbreviation run :=
  (create_nationalmap_mbtiles Coordinate.libm_tan Coordinate.libm_asinh).

(** The events that follow the request of attempt [a] when its outcome lets
    the loop go on: the log line and, on the retry paths, the wait. *)
Definition after_failure (env : environment) (zoom x y max_retries a : Z)
    : list event :=
  let wait_time := (inject_Z (2 ^ a) + uniform env zoom x y a)%Q in
  match server env zoom x y a with
  | Response status_code _ =>
      if status_code =? 429
      then [LogRateLimited zoom x y a; Sleep zoom x y a wait_time]
      else [LogHttpStatus status_code zoom x y]
  | NetTimeout | NetConnectionError =>
      LogNetworkError zoom x y a
        :: (if a <? max_retries - 1 then [Sleep zoom x y a wait_time] else [])
  | OtherException => []
  end.

(** The waits of a log: attempt number and duration of each [Sleep]. *)
Definition waits (l : list event) : list (Z * Q) :=
  flat_map (fun e => match e with Sleep _ _ _ a w => [(a, w)] | _ => [] end) l.

(** A tile (in XYZ coordinates) that the archive holds. *)
Definition archived (db : database) (zoom x y : Z) : bool :=
  tile_exists (mk_connection db db) zoom x y.

(** The statements that set an archive up. *)
Definition sql_setup (e : event) : bool :=
  match e with
  | SqlCreateSchema | SqlInsertMetadata _ _ => true
  | _ => false
  end.

(** The connection has only added tile rows to those of [db0]: some are
    committed, some pending. *)
Definition extends (db0 : database) (cn : connection) : Prop :=
  exists committed pending,
    tiles (disk cn) = tiles db0 ++ committed
    /\ tiles (work cn) = tiles db0 ++ committed ++ pending.

(** Invariants of a run on an archive [db0]: the rows are kept and the
    index stays unique; the metadata stays as it was; the events request no
    tile of [db0] and set nothing up. *)
Definition index_kept (db0 : database) (cn : connection) : Prop :=
  extends db0 cn /\ unique_keys (tiles (work cn)).

Definition metadata_kept (db0 : database) (cn : connection) : Prop :=
  metadata (disk cn) = metadata db0 /\ metadata (work cn) = metadata db0.

Definition skips_archived (db0 : database) (e : event) : Prop :=
  match event_tile e with
  | Some (z, x, y) => archived db0 z x y = false
  | None => sql_setup e = false
  end.

(** ** Vocabulary of the further properties *)

(** Seconds slept in a log. *)
Definition total_wait (l : list event) : Q :=
  fold_right (fun e acc => match e with Sleep _ _ _ _ w => (w + acc)%Q | _ => acc end)
             0%Q l.

(** A tile index inside the grid of its zoom level. *)
Definition in_grid (zoom x y : Z) : Prop :=
  0 <= zoom /\ 0 <= x <= 2 ^ zoom - 1 /\ 0 <= y <= 2 ^ zoom - 1.

(** A row that a run over [min_zoom .. max_zoom] may add: inside the grid
    of a zoom level of the range, with a non-empty payload that the server
    sent with status 200, within the budget, for the tile of the row. *)
Definition fetched_row (env : environment) (min_zoom max_zoom : Z) (t : tile) : Prop :=
  min_zoom <= zoom_level t <= max_zoom
  /\ in_grid (zoom_level t) (tile_column t) (tile_row t)
  /\ tile_data t <> []
  /\ exists attempt,
       0 <= attempt < default_max_retries
       /\ server env (zoom_level t) (tile_column t)
            ((2 ^ zoom_level t - 1) - tile_row t) attempt
          = Response 200 (tile_data t).

(** A request for a tile of a zoom level of the range, inside the grid and
    inside the rectangle of the bounds of that level, within the budget. *)
Definition request_in_bounds (tan asinh : float -> float) (min_zoom max_zoom : Z)
    (e : event) : Prop :=
  match e with
  | HttpGet z x y attempt =>
      min_zoom <= z <= max_zoom /\ 0 <= attempt < default_max_retries
      /\ in_grid z x y
      /\ exists x_min x_max y_min y_max,
           tile_rect tan asinh z = Some (x_min, x_max, y_min, y_max)
           /\ x_min <= x <= x_max /\ y_min <= y <= y_max
  | _ => True
  end.

(** The archive file a run starts from, a new one being empty. *)
Definition initial_database (file : option database) : database :=
  match file with Some db => db | None => empty_database end.

(** The columns of the two longitudes of the wide bounds at zoom [z]: 0 and
    [2 ^ z] (as a check that computes). *)
Definition wide_columns_check (z : Z) : bool :=
  match Coordinate.pow2 z with
  | Some n =>
      match Coordinate.int_of_float (Coordinate.xtile_value (min_lon wide_bounds) n),
            Coordinate.int_of_float (Coordinate.xtile_value (max_lon wide_bounds) n) with
      | Some west, Some east => (west =? 0) && (east =? 2 ^ z)
      | _, _ => false
      end
  | None => false
  end.

(** The tile of an element of [tile_list]. *)
Definition coords (t : tile_args) : Z * Z * Z :=
  let '(zoom, x, y, _) := t in (zoom, x, y).

Definition is_duplicate (e : event) : bool :=
  match e with LogDuplicate _ _ _ => true | _ => false end.

(** The tuples inserted into [tiles] according to a log, in order. *)
Definition inserted_rows (l : list event) : list (Z * Z * Z * payload) :=
  flat_map (fun e => match e with
                     | SqlInsertTile z x tms_y data => [(z, x, tms_y, data)]
                     | _ => []
                     end) l.

(** The key of a queued tuple, and the row it becomes. *)
Definition row_key (row : Z * Z * Z * payload) : Z * Z * Z :=
  let '(z, x, tms_y, _) := row in (z, x, tms_y).

Definition row_tile (row : Z * Z * Z * payload) : tile :=
  let '(z, x, tms_y, data) := row in mk_tile z x tms_y data.

Definition is_commit (e : event) : bool :=
  match e with SqlCommit => true | _ => false end.

(** The part of a log up to its last commit. *)
Fixpoint upto_last_commit (l : list event) : list event :=
  match l with
  | [] => []
  | e :: l' =>
      if is_commit e || existsb is_commit l' then e :: upto_last_commit l' else []
  end.

(** * Properties *)

(** ** The coordinate engine *)

(** [int] against the floor: they agree on a float that is not negative;
    on a negative one [int] is the floor or one more, and never positive. *)
Lemma int_of_float_floor : forall f,
  match Coordinate.int_of_float f, Coordinate.floor_of_float f with
  | Some t, Some fl =>
      (Coordinate.negative f = false -> t = fl)
      /\ fl <= t <= fl + 1
      /\ (Coordinate.negative f = true -> t <= 0)
  | None, None => True
  | _, _ => False
  end.
Proof.
  intros f. unfold Coordinate.int_of_float, Coordinate.floor_of_float, Coordinate.negative.
  destruct (Prim2SF f) as [s|s| |s m e]; try exact Logic.I.
  - repeat split; intros; lia.
  - destruct (Z.leb_spec 0 e) as [He|He].
    + assert (Hp : 0 < 2 ^ e) by (apply Z.pow_pos_nonneg; lia).
      destruct s.
      * rewrite <- Pos2Z.opp_pos, Z.mul_opp_l. repeat split; try discriminate; nia.
      * repeat split; try discriminate; lia.
    + assert (Hp : 0 < 2 ^ (- e)) by (apply Z.pow_pos_nonneg; lia).
      destruct s.
      * rewrite <- Pos2Z.opp_pos.
        assert (H1 := Z.div_mod (Z.pos m) (2 ^ (- e)) ltac:(lia)).
        assert (H2 := Z.mod_pos_bound (Z.pos m) (2 ^ (- e)) Hp).
        assert (H3 := Z.div_mod (- Z.pos m) (2 ^ (- e)) ltac:(lia)).
        assert (H4 := Z.mod_pos_bound (- Z.pos m) (2 ^ (- e)) Hp).
        assert (H5 : 0 <= Z.pos m / 2 ^ (- e)) by (apply Z.div_pos; lia).
        repeat split; try discriminate; nia.
      * repeat split; try discriminate; lia.
Qed.

(** The tile rectangles of zoom levels 0 to 15 under the tabulated C
    library: (x_min, x_max, y_min, y_max). *)
Example tile_rect_0_15 :
  map (tile_rect Coordinate.libm_tan Coordinate.libm_asinh) (range 0 16)
  = [ Some (0, 0, 0, 0); Some (0, 1, 1, 1); Some (0, 3, 2, 2); Some (0, 7, 4, 5);
      Some (0, 15, 9, 11); Some (0, 31, 18, 22); Some (0, 63, 36, 44);
      Some (0, 127, 73, 88); Some (0, 255, 146, 176); Some (0, 511, 293, 353);
      Some (984, 1021, 614, 665); Some (1968, 2042, 1229, 1331);
      Some (3936, 4084, 2459, 2663); Some (7873, 8169, 4919, 5327);
      Some (15746, 16338, 9839, 10654); Some (31493, 32676, 19678, 21309) ].
Proof. vm_compute. reflexivity. Qed.

(** C8, as stated, fails: one degree west of the antimeridian the column
    value is -1/360; [deg2num] returns column 0, its floor is -1. *)
Lemma deg2num_column_is_not_the_floor :
  Coordinate.deg2num Coordinate.libm_tan Coordinate.libm_asinh 0 (-181) 0 = Some (0, 0)
  /\ Coordinate.pow2 0 = Some 1%float
  /\ Coordinate.floor_of_float (Coordinate.xtile_value (-181) 1) = Some (-1).
Proof. repeat split; vm_compute; reflexivity. Qed.

(** C8 (amended): the column and the row that [deg2num] returns are the
    two values of the formula, at [n = 2.0 ** zoom], cut to their integer
    part by truncation toward zero and changed in no other way (no
    clamping).  The integer part is the floor when the value is not
    negative; on a negative value it is the floor or one more. *)
Theorem deg2num_truncates :
  forall tan asinh lat_deg lon_deg zoom xtile ytile,
    Coordinate.deg2num tan asinh lat_deg lon_deg zoom = Some (xtile, ytile) ->
    exists n fx fy,
      Coordinate.pow2 zoom = Some n
      /\ Coordinate.int_of_float (Coordinate.xtile_value lon_deg n) = Some xtile
      /\ Coordinate.int_of_float (Coordinate.ytile_value tan asinh lat_deg n) = Some ytile
      /\ Coordinate.floor_of_float (Coordinate.xtile_value lon_deg n) = Some fx
      /\ Coordinate.floor_of_float (Coordinate.ytile_value tan asinh lat_deg n) = Some fy
      /\ (Coordinate.negative (Coordinate.xtile_value lon_deg n) = false -> xtile = fx)
      /\ (Coordinate.negative (Coordinate.ytile_value tan asinh lat_deg n) = false ->
          ytile = fy)
      /\ fx <= xtile <= fx + 1 /\ fy <= ytile <= fy + 1.
Proof.
  intros tan asinh lat_deg lon_deg zoom xtile ytile. unfold Coordinate.deg2num.
  destruct (Coordinate.pow2 zoom) as [n|]; [|discriminate].
  assert (Hx := int_of_float_floor (Coordinate.xtile_value lon_deg n)).
  assert (Hy := int_of_float_floor (Coordinate.ytile_value tan asinh lat_deg n)).
  destruct (Coordinate.int_of_float (Coordinate.xtile_value lon_deg n)) as [tx|] eqn:Htx;
    [|discriminate].
  destruct (Coordinate.int_of_float (Coordinate.ytile_value tan asinh lat_deg n))
    as [ty|] eqn:Hty; [|discriminate].
  intros [= <- <-].
  destruct (Coordinate.floor_of_float (Coordinate.xtile_value lon_deg n)) as [fx|] eqn:Hfx;
    [|contradiction].
  destruct (Coordinate.floor_of_float (Coordinate.ytile_value tan asinh lat_deg n))
    as [fy|] eqn:Hfy; [|contradiction].
  destruct Hx as (Hx1 & Hx2 & _). destruct Hy as (Hy1 & Hy2 & _).
  exists n, fx, fy.
  split; [reflexivity|]. split; [exact Htx|]. split; [exact Hty|].
  split; [exact Hfx|]. split; [exact Hfy|].
  split; [exact Hx1|]. split; [exact Hy1|]. split; [exact Hx2|exact Hy2].
Qed.

Lemma deg2num_truncates_witness :
  Coordinate.deg2num Coordinate.libm_tan Coordinate.libm_asinh (-47.5) 540 0
  = Some (2, 0)
  /\ exists n fx fy,
       Coordinate.pow2 0 = Some n
       /\ Coordinate.int_of_float (Coordinate.xtile_value 540 n) = Some 2
       /\ Coordinate.int_of_float
            (Coordinate.ytile_value Coordinate.libm_tan Coordinate.libm_asinh (-47.5) n)
          = Some 0
       /\ Coordinate.floor_of_float (Coordinate.xtile_value 540 n) = Some fx
       /\ Coordinate.floor_of_float
            (Coordinate.ytile_value Coordinate.libm_tan Coordinate.libm_asinh (-47.5) n)
          = Some fy
       /\ (Coordinate.negative (Coordinate.xtile_value 540 n) = false -> 2 = fx)
       /\ (Coordinate.negative
             (Coordinate.ytile_value Coordinate.libm_tan Coordinate.libm_asinh (-47.5) n)
           = false -> 0 = fy)
       /\ fx <= 2 <= fx + 1 /\ fy <= 0 <= fy + 1.
Proof.
  assert (H : Coordinate.deg2num Coordinate.libm_tan Coordinate.libm_asinh (-47.5) 540 0
              = Some (2, 0)) by (vm_compute; reflexivity).
  split; [exact H|].
  exact (deg2num_truncates Coordinate.libm_tan Coordinate.libm_asinh (-47.5) 540 0 2 0 H).
Defined.

(** ** The fetch loop *)

Section FetchFacts.

Variable env : environment.
Variables zoom x y max_retries : Z.

Lemma attempts_S : forall todo a,
  attempts env zoom x y max_retries (S todo) a =
    if success (server env zoom x y a) then
      ([HttpGet zoom x y a],
       match server env zoom x y a with
       | Response _ c => Some c
       | _ => None
       end)
    else if goes_on (server env zoom x y a) then
      (HttpGet zoom x y a
         :: after_failure env zoom x y max_retries a
         ++ fst (attempts env zoom x y max_retries todo (a + 1)),
       snd (attempts env zoom x y max_retries todo (a + 1)))
    else ([HttpGet zoom x y a; LogError zoom x y], None).
Proof.
  intros todo a. cbn [attempts]. unfold after_failure.
  destruct (server env zoom x y a) as [s c| | |]; cbn [success goes_on];
    try (destruct (attempts env zoom x y max_retries todo (a + 1)); reflexivity).
  destruct ((s =? 200) && (0 <? Z.of_nat (List.length c))); cbn [negb]; [reflexivity|].
  destruct (s =? 429);
    destruct (attempts env zoom x y max_retries todo (a + 1)); reflexivity.
Qed.

Lemma after_failure_tile : forall a e,
  In e (after_failure env zoom x y max_retries a) ->
  event_tile e = Some (zoom, x, y) /\ is_get e = false.
Proof.
  intros a e. unfold after_failure.
  destruct (server env zoom x y a) as [s c| | |];
    [destruct (s =? 429)| | |]; try destruct (a <? max_retries - 1);
    cbn [In]; intros H; repeat (destruct H as [H|H]; [subst e; split; reflexivity|]);
    contradiction.
Qed.

Lemma after_failure_sleep : forall a z' x' y' k w,
  In (Sleep z' x' y' k w) (after_failure env zoom x y max_retries a) <->
  z' = zoom /\ x' = x /\ y' = y /\ k = a
  /\ w = (inject_Z (2 ^ a) + uniform env zoom x y a)%Q
  /\ (rate_limited (server env zoom x y a) = true
      \/ (network_error (server env zoom x y a) = true /\ a < max_retries - 1)).
Proof.
  intros a z' x' y' k w. unfold after_failure.
  destruct (server env zoom x y a) as [s c| | |]; cbn [rate_limited network_error].
  - destruct (s =? 429); cbn [In]; split.
    + intros [H|[H|[]]]; inversion H; subst; auto 10.
    + intros (-> & -> & -> & -> & -> & _). auto.
    + intros [H|[]]; inversion H.
    + intros (_ & _ & _ & _ & _ & [H|[H _]]); discriminate.
  - destruct (Z.ltb_spec a (max_retries - 1)) as [Hlt|Hge]; cbn [In]; split.
    + intros [H|[H|[]]]; inversion H; subst; auto 10.
    + intros (-> & -> & -> & -> & -> & _). auto.
    + intros [H|[]]; inversion H.
    + intros (_ & _ & _ & _ & _ & [H|[_ H']]); [discriminate|lia].
  - destruct (Z.ltb_spec a (max_retries - 1)) as [Hlt|Hge]; cbn [In]; split.
    + intros [H|[H|[]]]; inversion H; subst; auto 10.
    + intros (-> & -> & -> & -> & -> & _). auto.
    + intros [H|[]]; inversion H.
    + intros (_ & _ & _ & _ & _ & [H|[_ H']]); [discriminate|lia].
  - cbn [In]; split; [intros []|].
    intros (_ & _ & _ & _ & _ & [H|[H _]]); discriminate.
Qed.

(** Every event of a fetch belongs to its tile. *)
Lemma attempts_tile : forall todo a e,
  In e (fst (attempts env zoom x y max_retries todo a)) ->
  event_tile e = Some (zoom, x, y).
Proof.
  induction todo as [|todo IH]; intros a e; [intros []|].
  rewrite attempts_S.
  destruct (success (server env zoom x y a)); [|destruct (goes_on (server env zoom x y a))];
    cbn [fst In].
  - intros [<-|[]]; reflexivity.
  - rewrite in_app_iff. intros [<-|[H|H]]; [reflexivity| |eauto].
    apply (after_failure_tile a e H).
  - intros [<-|[<-|[]]]; reflexivity.
Qed.

(** Attempt [k] is made exactly when it is within the budget and every
    earlier attempt let the loop go on. *)
Lemma get_reached : forall todo a z' x' y' k,
  In (HttpGet z' x' y' k) (fst (attempts env zoom x y max_retries todo a)) <->
  z' = zoom /\ x' = x /\ y' = y /\ a <= k < a + Z.of_nat todo
  /\ forall j, a <= j < k -> goes_on (server env zoom x y j) = true.
Proof.
  induction todo as [|todo IH]; intros a z' x' y' k.
  - cbn. split; [intros []|]. lia.
  - rewrite attempts_S.
    assert (Hsg : success (server env zoom x y a) = true ->
                  goes_on (server env zoom x y a) = false).
    { destruct (server env zoom x y a); cbn; try discriminate.
      intros ->. reflexivity. }
    destruct (success (server env zoom x y a)) eqn:Hs;
      [|destruct (goes_on (server env zoom x y a)) eqn:Hg]; cbn [fst In].
    + specialize (Hsg eq_refl). split.
      * intros [H|[]]. injection H as <- <- <- <-. repeat split; try lia.
      * intros (-> & -> & -> & Hk & Hj).
        destruct (Z.eq_dec k a) as [->|Hne]; [auto|].
        specialize (Hj a ltac:(lia)). congruence.
    + rewrite in_app_iff, IH. split.
      * intros [H|[H|H]].
        -- injection H as <- <- <- <-. repeat split; try lia.
        -- apply after_failure_tile in H. destruct H as [_ H]. discriminate.
        -- destruct H as (-> & -> & -> & Hk & Hj). repeat split; try lia.
           intros j Hjr. destruct (Z.eq_dec j a) as [->|Hne]; [assumption|].
           apply Hj. lia.
      * intros (-> & -> & -> & Hk & Hj).
        destruct (Z.eq_dec k a) as [->|Hne]; [auto|].
        right. right. repeat split; try lia. intros j Hjr. apply Hj. lia.
    + split.
      * intros [H|[H|[]]]; [|discriminate H].
        injection H as <- <- <- <-. repeat split; try lia.
      * intros (-> & -> & -> & Hk & Hj).
        destruct (Z.eq_dec k a) as [->|Hne]; [auto|].
        specialize (Hj a ltac:(lia)). congruence.
Qed.

(** A wait belongs to an attempt that was made and was rate limited, or
    failed on the network before the last attempt; it lasts
    [2 ^ attempt] plus the draw. *)
Lemma sleep_reached : forall todo a z' x' y' k w,
  In (Sleep z' x' y' k w) (fst (attempts env zoom x y max_retries todo a)) <->
  In (HttpGet z' x' y' k) (fst (attempts env zoom x y max_retries todo a))
  /\ w = (inject_Z (2 ^ k) + uniform env zoom x y k)%Q
  /\ success (server env zoom x y k) = false
  /\ (rate_limited (server env zoom x y k) = true
      \/ (network_error (server env zoom x y k) = true /\ k < max_retries - 1)).
Proof.
  induction todo as [|todo IH]; intros a z' x' y' k w.
  - cbn. tauto.
  - assert (Hget := get_reached (S todo) a z' x' y' k).
    assert (Hget' := get_reached todo (a + 1) z' x' y' k).
    rewrite attempts_S in *.
    destruct (success (server env zoom x y a)) eqn:Hs;
      [|destruct (goes_on (server env zoom x y a)) eqn:Hg]; cbn [fst In] in *.
    + split.
      * intros [H|[]]; inversion H.
      * intros ([H|[]] & _ & Hk & _). injection H as <- <- <- <-. congruence.
    + rewrite !in_app_iff, IH, after_failure_sleep. split.
      * intros [H|[H|H]]; [inversion H| |].
        -- destruct H as (-> & -> & -> & -> & -> & H). auto.
        -- destruct H as (Hin & -> & H). auto.
      * intros ([H|[H|H]] & -> & Hk & Hc).
        -- injection H as <- <- <- <-. right. left. auto 10.
        -- apply after_failure_tile in H. destruct H as [_ H]. discriminate.
        -- right. right. auto.
    + split.
      * intros [H|[H|[]]]; inversion H.
      * intros ([H|[H|[]]] & _ & Hk & Hc); [|discriminate H].
        injection H as <- <- <- <-.
        destruct (server env zoom x y a) as [s c| | |]; cbn in *; try discriminate;
          destruct Hc as [Hc|[Hc _]]; try discriminate.
        rewrite Hs in Hg. discriminate.
Qed.

(** A payload comes from an attempt that was made and answered 200 with
    a body. *)
Lemma attempts_some : forall todo a data,
  snd (attempts env zoom x y max_retries todo a) = Some data ->
  exists k, In (HttpGet zoom x y k) (fst (attempts env zoom x y max_retries todo a))
            /\ server env zoom x y k = Response 200 data /\ data <> [].
Proof.
  induction todo as [|todo IH]; intros a data; [discriminate|].
  rewrite attempts_S.
  destruct (success (server env zoom x y a)) eqn:Hs;
    [|destruct (goes_on (server env zoom x y a))]; cbn [fst snd].
  - destruct (server env zoom x y a) as [s c| | |] eqn:Hsrv; try discriminate.
    intros [= ->]. exists a. cbn in Hs.
    apply andb_prop in Hs. destruct Hs as [Hs Hl].
    apply Z.eqb_eq in Hs. subst s. split; [left; reflexivity|]. split; [assumption|].
    intros ->. discriminate.
  - intros H. destruct (IH _ _ H) as (k & Hin & Hk). exists k.
    split; [|assumption]. right. apply in_or_app. auto.
  - discriminate.
Qed.

Lemma gets_app : forall l1 l2, gets (l1 ++ l2) = (gets l1 + gets l2)%nat.
Proof. intros. unfold gets. rewrite filter_app, length_app. reflexivity. Qed.

Lemma gets_after_failure : forall a,
  gets (after_failure env zoom x y max_retries a) = 0%nat.
Proof.
  intros a. unfold gets, after_failure.
  destruct (server env zoom x y a) as [s c| | |];
    [destruct (s =? 429)| | |]; try destruct (a <? max_retries - 1); reflexivity.
Qed.


Lemma gets_all : forall todo a,
  (forall j, a <= j < a + Z.of_nat todo -> goes_on (server env zoom x y j) = true) ->
  gets (fst (attempts env zoom x y max_retries todo a)) = todo
  /\ snd (attempts env zoom x y max_retries todo a) = None.
Proof.
  induction todo as [|todo IH]; intros a Hall; [split; reflexivity|].
  rewrite attempts_S.
  assert (Hg : goes_on (server env zoom x y a) = true) by (apply Hall; lia).
  assert (Hs : success (server env zoom x y a) = false).
  { destruct (server env zoom x y a); cbn in *; try reflexivity.
    apply negb_true_iff in Hg. exact Hg. }
  rewrite Hs, Hg. cbn [fst snd].
  destruct (IH (a + 1)) as [IH1 IH2]; [intros j Hj; apply Hall; lia|].
  split; [|assumption].
  change (HttpGet zoom x y a :: ?l) with ([HttpGet zoom x y a] ++ l).
  rewrite !gets_app, gets_after_failure, IH1. reflexivity.
Qed.

(** A status that is neither 200 nor 429 is printed. *)
Lemma status_logged : forall todo a k s c,
  In (HttpGet zoom x y k) (fst (attempts env zoom x y max_retries todo a)) ->
  server env zoom x y k = Response s c ->
  success (Response s c) = false -> s <> 429 ->
  In (LogHttpStatus s zoom x y) (fst (attempts env zoom x y max_retries todo a)).
Proof.
  induction todo as [|todo IH]; intros a k s c; [intros []|].
  assert (Hget' := get_reached todo (a + 1) zoom x y k).
  rewrite attempts_S.
  destruct (success (server env zoom x y a)) eqn:Hs;
    [|destruct (goes_on (server env zoom x y a)) eqn:Hg]; cbn [fst In].
  - intros [H|[]] Hk Hf _. injection H as <-. congruence.
  - rewrite !in_app_iff. intros [H|[H|H]] Hk Hf Hne.
    + injection H as <-. right. left. unfold after_failure. rewrite Hk.
      destruct (Z.eqb_spec s 429); [contradiction|]. left. reflexivity.
    + apply after_failure_tile in H. destruct H as [_ H]. discriminate.
    + right. right. eapply IH; eauto.
  - intros [H|[H|[]]] Hk Hf _; [|discriminate H]. injection H as <-.
    rewrite Hk in Hg. cbn [goes_on] in Hg. rewrite Hf in Hg. discriminate.
Qed.

End FetchFacts.

(** ** The fetch worker's retry policy *)

(** Membership in a list that computes. *)
Ltac in_list := cbn; repeat first [left; reflexivity | right].

Lemma download_wms_tile_get : forall env zoom x y key max_retries a,
  In (HttpGet zoom x y a) (fst (download_wms_tile env zoom x y key max_retries)) <->
  0 <= a < max_retries
  /\ forall j, 0 <= j < a -> goes_on (server env zoom x y j) = true.
Proof.
  intros. unfold download_wms_tile. rewrite get_reached. split.
  - intros (_ & _ & _ & Ha & Hj). split; [lia|assumption].
  - intros (Ha & Hj). repeat split; try lia. assumption.
Qed.




(** Two rate-limited attempts, then a tile: the third request succeeds and
    the second wait is longer than the first. *)
Example rate_limited_twice_then_fetched :
  snd (download_wms_tile limited_twice 3 2 5 "key" default_max_retries) = Some png
  /\ gets (fst (download_wms_tile limited_twice 3 2 5 "key" default_max_retries)) = 3%nat
  /\ waits (fst (download_wms_tile limited_twice 3 2 5 "key" default_max_retries))
     = [(0, (3 # 2)%Q); (1, (5 # 2)%Q)]
  /\ (3 # 2 < 5 # 2)%Q.
Proof. repeat split. Qed.




(** C10: a 200 with an empty body is no success.  A payload is returned only
    from an attempt that was made and answered 200 with a non-empty body.
    An attempt answered by an empty 200 takes the generic branch: "HTTP 200"
    is printed, no wait follows, and the next attempt is made when one is
    left.  Under a server that only sends empty 200s all [max_retries]
    requests are made and nothing is returned. *)
Theorem empty_body_is_not_success :
  forall env zoom x y key max_retries,
    (forall data,
        snd (download_wms_tile env zoom x y key max_retries) = Some data ->
        exists a,
          In (HttpGet zoom x y a) (fst (download_wms_tile env zoom x y key max_retries))
          /\ server env zoom x y a = Response 200 data /\ data <> [])
    /\ (forall a,
          In (HttpGet zoom x y a) (fst (download_wms_tile env zoom x y key max_retries)) ->
          server env zoom x y a = Response 200 [] ->
          In (LogHttpStatus 200 zoom x y)
             (fst (download_wms_tile env zoom x y key max_retries))
          /\ (forall w, ~ In (Sleep zoom x y a w)
                             (fst (download_wms_tile env zoom x y key max_retries)))
          /\ (a + 1 < max_retries ->
              In (HttpGet zoom x y (a + 1))
                 (fst (download_wms_tile env zoom x y key max_retries))))
    /\ ((forall a, server env zoom x y a = Response 200 []) ->
        gets (fst (download_wms_tile env zoom x y key max_retries)) = Z.to_nat max_retries
        /\ snd (download_wms_tile env zoom x y key max_retries) = None).
Proof.
  intros env zoom x y key max_retries. split; [|split].
  - intros data H. unfold download_wms_tile in *. apply attempts_some in H. exact H.
  - intros a Hget Hsrv. split; [|split].
    + unfold download_wms_tile in *.
      eapply status_logged; eauto. discriminate.
    + intros w Hin. unfold download_wms_tile in Hin. apply sleep_reached in Hin.
      destruct Hin as (_ & _ & _ & [H|[H _]]); rewrite Hsrv in H; discriminate.
    + intros Hlt. apply download_wms_tile_get.
      apply download_wms_tile_get in Hget. destruct Hget as [Ha Hj].
      split; [lia|]. intros j Hjr.
      destruct (Z.eq_dec j a) as [->|Hne]; [rewrite Hsrv; reflexivity|].
      apply Hj. lia.
  - intros Hall. unfold download_wms_tile. apply gets_all.
    intros j _. rewrite Hall. reflexivity.
Qed.

(** ** The tile store *)

Lemma same_key_spec : forall z x r t,
  same_key z x r t = true <->
  zoom_level t = z /\ tile_column t = x /\ tile_row t = r.
Proof.
  intros. unfold same_key. rewrite !andb_true_iff, !Z.eqb_eq. tauto.
Qed.

Lemma count_key_app : forall z x r l1 l2,
  count_key z x r (l1 ++ l2) = (count_key z x r l1 + count_key z x r l2)%nat.
Proof. intros. unfold count_key. rewrite filter_app, length_app. reflexivity. Qed.

Lemma select_tile_count : forall db z x r,
  select_tile db z x r = true <-> (1 <= count_key z x r (tiles db))%nat.
Proof.
  intros db z x r. unfold select_tile, count_key.
  induction (tiles db) as [|t l IH]; cbn.
  - split; [discriminate|lia].
  - destruct (same_key z x r t); cbn; [split; [lia|reflexivity]|exact IH].
Qed.

Lemma select_tile_absent : forall db z x r,
  select_tile db z x r = false <-> count_key z x r (tiles db) = 0%nat.
Proof.
  intros db z x r. assert (H := select_tile_count db z x r).
  destruct (select_tile db z x r); split; intros H'; try reflexivity; try discriminate.
  - assert (1 <= count_key z x r (tiles db))%nat by (apply H; reflexivity). lia.
  - destruct (count_key z x r (tiles db)) eqn:Hc; [reflexivity|].
    assert (true = false); [|discriminate]. symmetry. apply H. lia.
Qed.

Lemma select_tile_app : forall m l1 l2 z x r,
  select_tile (mk_database m l1) z x r = true ->
  select_tile (mk_database m (l1 ++ l2)) z x r = true.
Proof.
  intros m l1 l2 z x r. unfold select_tile. cbn. rewrite existsb_app.
  intros ->. reflexivity.
Qed.

(** What one guarded INSERT does to the connection. *)
Lemma insert_tile_work : forall cn z x r d,
  disk (fst (insert_tile cn (z, x, r, d))) = disk cn
  /\ metadata (work (fst (insert_tile cn (z, x, r, d)))) = metadata (work cn)
  /\ tiles (work (fst (insert_tile cn (z, x, r, d))))
     = tiles (work cn)
         ++ (if select_tile (work cn) z x r then [] else [mk_tile z x r d]).
Proof.
  intros cn z x r d. unfold insert_tile.
  destruct (select_tile (work cn) z x r); cbn; rewrite ?app_nil_r; auto.
Qed.

Lemma insert_tile_unique : forall cn row,
  unique_keys (tiles (work cn)) ->
  unique_keys (tiles (work (fst (insert_tile cn row)))).
Proof.
  intros cn [[[z x] r] d] Hu.
  destruct (insert_tile_work cn z x r d) as (_ & _ & ->).
  destruct (select_tile (work cn) z x r) eqn:Hsel; [rewrite app_nil_r; exact Hu|].
  apply select_tile_absent in Hsel.
  intros z' x' r'. rewrite count_key_app. unfold count_key at 2. cbn [filter].
  destruct (same_key z' x' r' (mk_tile z x r d)) eqn:Hk; cbn [List.length].
  - apply same_key_spec in Hk. cbn in Hk. destruct Hk as (<- & <- & <-).
    rewrite Hsel. lia.
  - specialize (Hu z' x' r'). lia.
Qed.

Lemma insert_tile_present : forall cn z x r d,
  select_tile (work (fst (insert_tile cn (z, x, r, d)))) z x r = true.
Proof.
  intros cn z x r d. apply select_tile_count.
  destruct (insert_tile_work cn z x r d) as (_ & _ & ->).
  rewrite count_key_app.
  destruct (select_tile (work cn) z x r) eqn:Hsel.
  - apply select_tile_count in Hsel. lia.
  - unfold count_key at 2. cbn [filter].
    replace (same_key z x r (mk_tile z x r d)) with true; [cbn; lia|].
    symmetry. apply same_key_spec. cbn. auto.
Qed.

Lemma insert_tile_extends : forall db0 cn row,
  extends db0 cn -> extends db0 (fst (insert_tile cn row)).
Proof.
  intros db0 cn [[[z x] r] d] (c & p & Hd & Hw).
  destruct (insert_tile_work cn z x r d) as (Hd' & _ & Hw').
  exists c, (p ++ (if select_tile (work cn) z x r then [] else [mk_tile z x r d])).
  rewrite Hd', Hw', Hw, <- !app_assoc. auto.
Qed.

Lemma commit_extends : forall db0 cn, extends db0 cn -> extends db0 (commit cn).
Proof.
  intros db0 cn (c & p & Hd & Hw). exists (c ++ p), []. cbn.
  rewrite Hw, app_nil_r. auto.
Qed.

Lemma insert_tile_log : forall cn z x r d,
  snd (insert_tile cn (z, x, r, d))
  = if select_tile (work cn) z x r then [LogDuplicate z x r]
    else [SqlInsertTile z x r d].
Proof.
  intros. unfold insert_tile. destruct (select_tile (work cn) z x r); reflexivity.
Qed.

Lemma drain_queue_cons : forall row q cn,
  drain_queue (row :: q) cn
  = (fst (drain_queue q (fst (insert_tile cn row))),
     snd (insert_tile cn row) ++ snd (drain_queue q (fst (insert_tile cn row)))).
Proof.
  intros. cbn [drain_queue]. destruct (insert_tile cn row) as [cn1 log1]. cbn [fst snd].
  destruct (drain_queue q cn1). reflexivity.
Qed.

(** Rows already there stay; a key is never counted twice. *)
Lemma drain_queue_keeps : forall q cn z x r,
  (1 <= count_key z x r (tiles (work cn)))%nat ->
  count_key z x r (tiles (work (fst (drain_queue q cn))))
  = count_key z x r (tiles (work cn)).
Proof.
  induction q as [|[[[z' x'] r'] d'] q IH]; intros cn z x r H; [reflexivity|].
  rewrite drain_queue_cons. cbn [fst].
  destruct (insert_tile_work cn z' x' r' d') as (_ & _ & Hw).
  assert (Hc : count_key z x r (tiles (work (fst (insert_tile cn (z', x', r', d')))))
               = count_key z x r (tiles (work cn))).
  { rewrite Hw, count_key_app.
    destruct (select_tile (work cn) z' x' r') eqn:Hsel; [cbn; lia|].
    unfold count_key at 2. cbn [filter].
    destruct (same_key z x r (mk_tile z' x' r' d')) eqn:Hk; [|cbn; lia].
    apply same_key_spec in Hk. cbn in Hk. destruct Hk as (-> & -> & ->).
    apply select_tile_absent in Hsel. lia. }
  rewrite IH; [exact Hc|lia].
Qed.

Lemma drain_queue_unique : forall q cn,
  unique_keys (tiles (work cn)) ->
  unique_keys (tiles (work (fst (drain_queue q cn)))).
Proof.
  induction q as [|row q IH]; intros cn Hu; [exact Hu|].
  rewrite drain_queue_cons. cbn [fst]. apply IH, insert_tile_unique, Hu.
Qed.

(** Every key that was on the queue has exactly one row afterwards. *)
Lemma drain_queue_one_row : forall q cn z x r d,
  unique_keys (tiles (work cn)) ->
  In (z, x, r, d) q ->
  count_key z x r (tiles (work (fst (drain_queue q cn)))) = 1%nat.
Proof.
  induction q as [|row q IH]; intros cn z x r d Hu; [intros []|].
  intros [->|Hin]; rewrite drain_queue_cons; cbn [fst].
  - assert (Hp := insert_tile_present cn z x r d).
    apply select_tile_count in Hp.
    assert (Hu' := insert_tile_unique cn (z, x, r, d) Hu z x r).
    rewrite drain_queue_keeps; lia.
  - eapply IH; eauto. apply insert_tile_unique, Hu.
Qed.

(** C6: a write whose key is already in the archive raises no error: the
    guarded INSERT leaves the connection as it was and prints the duplicate,
    the main thread goes on with the rest of the queue, and the key keeps
    exactly one row.  More generally, whatever was queued, every queued key
    has exactly one row once the queue is drained, and the index stays
    unique. *)
Theorem duplicate_write_is_benign :
  forall cn z x r data tile_queue,
    unique_keys (tiles (work cn)) ->
    select_tile (work cn) z x r = true ->
    insert_tile cn (z, x, r, data) = (cn, [LogDuplicate z x r])
    /\ drain_queue ((z, x, r, data) :: tile_queue) cn
       = (fst (drain_queue tile_queue cn),
          LogDuplicate z x r :: snd (drain_queue tile_queue cn))
    /\ count_key z x r
         (tiles (work (fst (drain_queue ((z, x, r, data) :: tile_queue) cn))))
       = 1%nat
    /\ count_key z x r
         (tiles (disk (commit (fst (drain_queue ((z, x, r, data) :: tile_queue) cn)))))
       = 1%nat
    /\ (forall z' x' r' d',
          In (z', x', r', d') tile_queue ->
          count_key z' x' r'
            (tiles (work (fst (drain_queue ((z, x, r, data) :: tile_queue) cn))))
          = 1%nat)
    /\ unique_keys
         (tiles (work (fst (drain_queue ((z, x, r, data) :: tile_queue) cn)))).
Proof.
  intros cn z x r data tile_queue Hu Hsel.
  assert (Hins : insert_tile cn (z, x, r, data) = (cn, [LogDuplicate z x r])).
  { unfold insert_tile. rewrite Hsel. reflexivity. }
  assert (Hone : count_key z x r
                   (tiles (work (fst (drain_queue ((z, x, r, data) :: tile_queue) cn))))
                 = 1%nat).
  { eapply drain_queue_one_row; [exact Hu|left; reflexivity]. }
  split; [exact Hins|]. split.
  { rewrite drain_queue_cons, Hins. reflexivity. }
  split; [exact Hone|]. split; [exact Hone|]. split.
  - intros z' x' r' d' Hin. eapply drain_queue_one_row; [exact Hu|right; exact Hin].
  - apply drain_queue_unique, Hu.
Qed.

Lemma duplicate_write_is_benign_witness :
  let cn := mk_connection empty_database (mk_database [] [mk_tile 3 2 2 png]) in
  drain_queue [(3, 2, 2, [Byte.x00]); (3, 4, 2, png); (3, 4, 2, [Byte.x00])] cn
  = (fst (drain_queue [(3, 4, 2, png); (3, 4, 2, [Byte.x00])] cn),
     LogDuplicate 3 2 2 :: snd (drain_queue [(3, 4, 2, png); (3, 4, 2, [Byte.x00])] cn))
  /\ tiles (work (fst (drain_queue
       [(3, 2, 2, [Byte.x00]); (3, 4, 2, png); (3, 4, 2, [Byte.x00])] cn)))
     = [mk_tile 3 2 2 png; mk_tile 3 4 2 png].
Proof.
  intros cn. split; [|reflexivity].
  apply (duplicate_write_is_benign cn 3 2 2 [Byte.x00]
           [(3, 4, 2, png); (3, 4, 2, [Byte.x00])]).
  - intros z x r. unfold count_key. cbn.
    destruct (same_key z x r (mk_tile 3 2 2 png)); cbn; lia.
  - reflexivity.
Defined.

(** C4: the worker queues a fetched tile under
    [store_row = (2 ^ zoom - 1) - y]; the existence check looks the same row
    up, so a tile that was written is found under its XYZ row.  On the rows
    of a zoom level the inversion is its own inverse. *)
Theorem tms_row_inversion :
  forall env cn zoom x y key data,
    0 <= zoom -> 0 <= y <= 2 ^ zoom - 1 ->
    snd (download_wms_tile env zoom x y key default_max_retries) = Some data ->
    queued (download_tile_worker env (zoom, x, y, key))
    = Some (zoom, x, (2 ^ zoom - 1) - y, data)
    /\ tile_exists cn zoom x y = select_tile (work cn) zoom x ((2 ^ zoom - 1) - y)
    /\ (tile_exists cn zoom x y = false ->
        tiles (work (fst (drain_queue
                            (queue_of [download_tile_worker env (zoom, x, y, key)]) cn)))
        = tiles (work cn) ++ [mk_tile zoom x ((2 ^ zoom - 1) - y) data])
    /\ tile_exists
         (fst (drain_queue (queue_of [download_tile_worker env (zoom, x, y, key)]) cn))
         zoom x y = true
    /\ 0 <= (2 ^ zoom - 1) - y <= 2 ^ zoom - 1
    /\ (2 ^ zoom - 1) - ((2 ^ zoom - 1) - y) = y.
Proof.
  intros env cn zoom x y key data Hz Hy Hdata.
  assert (Hq : queued (download_tile_worker env (zoom, x, y, key))
               = Some (zoom, x, (2 ^ zoom - 1) - y, data)).
  { unfold download_tile_worker.
    destruct (download_wms_tile env zoom x y key default_max_retries) as [fetched r] eqn:Hd.
    cbn [snd] in Hdata. subst r.
    assert (Hne : data <> []).
    { assert (H := attempts_some env zoom x y default_max_retries
                     (Z.to_nat default_max_retries) 0 data).
      unfold download_wms_tile in Hd. rewrite Hd in H.
      destruct (H eq_refl) as (k & _ & _ & Hne). exact Hne. }
    destruct data as [|b data]; [contradiction|]. reflexivity. }
  split; [exact Hq|]. split; [reflexivity|].
  unfold queue_of. cbn [flat_map]. rewrite Hq. cbn [app].
  rewrite drain_queue_cons. cbn [drain_queue fst].
  split; [|split; [|lia]].
  - unfold tile_exists. cbn zeta. intros Habs.
    destruct (insert_tile_work cn zoom x ((2 ^ zoom - 1) - y) data) as (_ & _ & ->).
    rewrite Habs. reflexivity.
  - apply insert_tile_present.
Qed.

Lemma tms_row_inversion_witness :
  queued (download_tile_worker (always (Response 200 png)) (3, 2, 5, "key"%string))
  = Some (3, 2, 2, png)
  /\ tile_exists (mk_connection empty_database (mk_database [] [mk_tile 3 2 2 png])) 3 2 5
     = true.
Proof.
  destruct (tms_row_inversion (always (Response 200 png))
              (mk_connection empty_database empty_database) 3 2 5 "key" png)
    as (Hq & _ & Hw & Hex & _); [lia|cbn; lia|reflexivity|].
  split; [exact Hq|]. reflexivity.
Defined.

(** ** The orchestrator *)

Lemma range_In : forall lo hi z, In z (range lo hi) <-> lo <= z < hi.
Proof.
  intros lo hi z. unfold range. rewrite in_map_iff. split.
  - intros (i & <- & Hi). apply in_seq in Hi. lia.
  - intros Hz. exists (Z.to_nat (z - lo)). split; [lia|]. apply in_seq. lia.
Qed.

Lemma tiles_in_bounds_In : forall zoom x_min x_max y_min y_max key z x y k,
  In (z, x, y, k) (tiles_in_bounds zoom (x_min, x_max, y_min, y_max) key) <->
  z = zoom /\ k = key /\ x_min <= x <= x_max /\ y_min <= y <= y_max.
Proof.
  intros. unfold tiles_in_bounds. rewrite in_flat_map. split.
  - intros (x' & Hx & Hin). apply in_map_iff in Hin. destruct Hin as (y' & Heq & Hy).
    injection Heq as <- <- <- <-. apply range_In in Hx, Hy. repeat split; lia.
  - intros (-> & -> & Hx & Hy). exists x. split; [apply range_In; lia|].
    apply in_map_iff. exists y. split; [reflexivity|apply range_In; lia].
Qed.

Lemma remove_nth_In : forall (A : Type) (l : list A) i a,
  In a (remove_nth i l) -> In a l.
Proof.
  induction l as [|b l IH]; intros i a; [destruct i; intros []|].
  destruct i; cbn; [auto|]. intros [->|H]; eauto.
Qed.

(** A future that completes is one that was submitted. *)
Lemma completion_order_In : forall (A : Type) picks fuel step (l : list A) a,
  In a (completion_order picks step fuel l) -> In a l.
Proof.
  induction fuel as [|fuel IH]; intros step l a; [intros []|].
  destruct l as [|b l]; [intros []|]. cbn [completion_order].
  intros [<-|H].
  - destruct (nth_in_or_default (picks step mod List.length (b :: l)) (b :: l) b) as [H | ->];
      [exact H|left; reflexivity].
  - apply IH in H. eapply remove_nth_In; eauto.
Qed.

Lemma download_tile_worker_log : forall env z x y key e,
  In e (fetch_log (download_tile_worker env (z, x, y, key))) ->
  event_tile e = Some (z, x, y).
Proof.
  intros env z x y key e. unfold download_tile_worker.
  assert (H := attempts_tile env z x y default_max_retries
                 (Z.to_nat default_max_retries) 0 e).
  unfold download_wms_tile.
  destruct (attempts env z x y default_max_retries (Z.to_nat default_max_retries) 0)
    as [fetched [data|]]; [destruct (0 <? Z.of_nat (List.length data))|]; exact H.
Qed.

Lemma drain_queue_log : forall q cn e,
  In e (snd (drain_queue q cn)) -> event_tile e = None /\ sql_setup e = false.
Proof.
  induction q as [|[[[z x] r] d] q IH]; intros cn e; [intros []|].
  rewrite drain_queue_cons. cbn [snd]. rewrite in_app_iff, insert_tile_log.
  intros [H|H]; [|eauto].
  destruct (select_tile (work cn) z x r); destruct H as [H|[]]; subst e; split; reflexivity.
Qed.

(** Invariants of a run: a property [I] of the connection that the guarded
    INSERT and the commit keep, and a property [P] of the events that holds
    of the tile-store events of the loop and of the fetch events of a tile
    the connection does not see. *)
Section Invariants.

Variables tan asinh : float -> float.
Variable env : environment.
Variable I : connection -> Prop.
Variable P : event -> Prop.

Hypothesis I_insert : forall cn row, I cn -> I (fst (insert_tile cn row)).
Hypothesis I_commit : forall cn, I cn -> I (commit cn).
Hypothesis P_store : forall e,
  event_tile e = None -> sql_setup e = false -> P e.
Hypothesis P_fetch : forall cn z x y e,
  I cn -> tile_exists cn z x y = false -> event_tile e = Some (z, x, y) -> P e.

Lemma drain_queue_invariant : forall q cn, I cn -> I (fst (drain_queue q cn)).
Proof.
  induction q as [|row q IH]; intros cn Hcn; [exact Hcn|].
  rewrite drain_queue_cons. cbn [fst]. auto.
Qed.

Lemma as_completed_invariant :
  forall zoom futures running n successful_tiles cn done,
    I cn -> Forall P done ->
    (forall w e, In w running -> In e (fetch_log w) -> P e) ->
    I (fst (fst (as_completed env zoom futures running n successful_tiles cn done)))
    /\ Forall P
         (snd (fst (as_completed env zoom futures running n successful_tiles cn done))).
Proof.
  induction futures as [|future futures IH];
    intros running n successful_tiles cn done Hcn Hdone Hrun; [cbn; auto|].
  cbn [as_completed].
  set (k := (_ + ahead env zoom (Z.to_nat (n + 1)))%nat).
  destruct (drain_queue (queue_of (firstn k running)) cn) as [cn1 inserted] eqn:Hdrain.
  assert (Hcn1 : I cn1).
  { replace cn1 with (fst (drain_queue (queue_of (firstn k running)) cn))
      by (rewrite Hdrain; reflexivity).
    apply drain_queue_invariant, Hcn. }
  apply IH.
  - destruct ((n + 1) mod 10 =? 0); auto.
  - apply Forall_app. split; [exact Hdone|].
    apply Forall_app. split.
    { apply Forall_forall. intros e He. apply in_flat_map in He.
      destruct He as (w & Hw & He). apply (Hrun w e); [|exact He].
      rewrite <- (firstn_skipn k running). apply in_or_app. left. exact Hw. }
    apply Forall_app. split.
    { apply Forall_forall. intros e He.
      assert (H := drain_queue_log (queue_of (firstn k running)) cn e).
      rewrite Hdrain in H. destruct (H He). auto. }
    destruct ((n + 1) mod 10 =? 0); constructor; [|constructor].
    apply P_store; reflexivity.
  - intros w e Hw. apply Hrun.
    rewrite <- (firstn_skipn k running). apply in_or_app. right. exact Hw.
Qed.

Lemma zoom_loop_invariant : forall key zooms st,
  I (conn st) -> Forall P (log st) ->
  I (conn (fst (zoom_loop tan asinh env key zooms st)))
  /\ Forall P (log (fst (zoom_loop tan asinh env key zooms st))).
Proof.
  induction zooms as [|zoom zooms IH]; intros st Hcn Hlog; [cbn; auto|].
  cbn [zoom_loop].
  destruct (tile_rect tan asinh zoom) as [rect|]; [|cbn; auto].
  rewrite partition_as_filter.
  set (tile_list := filter _ (tiles_in_bounds zoom rect key)).
  destruct (Z.of_nat (List.length tile_list) =? 0); [auto|].
  set (futures := map _ _).
  assert (H := as_completed_invariant zoom futures futures 0 0 (conn st) (log st)
                 Hcn Hlog).
  destruct (as_completed env zoom futures futures 0 0 (conn st) (log st))
    as [[cn done] successful_tiles].
  cbn [fst snd] in H. destruct H as [Hcn' Hdone'].
  - intros w e Hw He. subst futures. apply in_map_iff in Hw.
    destruct Hw as ([[[z x] y] k] & <- & Ht).
    apply completion_order_In in Ht. subst tile_list.
    apply filter_In in Ht. destruct Ht as [_ Ht]. cbn in Ht.
    apply negb_true_iff in Ht.
    apply download_tile_worker_log in He.
    eapply P_fetch; eauto.
  - apply IH; assumption.
Qed.

End Invariants.

(** The log only grows. *)
Lemma as_completed_log : forall env zoom futures running n successful_tiles cn done,
  exists more,
    snd (fst (as_completed env zoom futures running n successful_tiles cn done))
    = done ++ more.
Proof.
  induction futures as [|future futures IH];
    intros running n successful_tiles cn done; [exists []; cbn; rewrite app_nil_r; reflexivity|].
  cbn [as_completed].
  destruct (drain_queue _ cn) as [cn1 inserted].
  match goal with
  | |- context [as_completed env zoom futures ?r ?m ?s ?c (done ++ ?l)] =>
      destruct (IH r m s c (done ++ l)) as [more ->]; exists (l ++ more)
  end.
  symmetry. apply app_assoc.
Qed.

Lemma zoom_loop_log : forall tan asinh env key zooms st,
  exists more, log (fst (zoom_loop tan asinh env key zooms st)) = log st ++ more.
Proof.
  induction zooms as [|zoom zooms IH]; intros st;
    [exists []; cbn; rewrite app_nil_r; reflexivity|].
  cbn [zoom_loop].
  destruct (tile_rect tan asinh zoom) as [rect|];
    [|exists []; cbn; rewrite app_nil_r; reflexivity].
  destruct (partition _ _) as [existing tile_list].
  destruct (Z.of_nat (List.length tile_list) =? 0); [apply IH|].
  set (futures := map _ _).
  destruct (as_completed_log env zoom futures futures 0 0 (conn st) (log st))
    as [more Hmore].
  destruct (as_completed env zoom futures futures 0 0 (conn st) (log st))
    as [[cn done] successful_tiles].
  cbn [fst snd] in Hmore. subst done.
  match goal with
  | |- context [zoom_loop tan asinh env key zooms ?s] =>
      destruct (IH s) as [more' ->]; exists (more ++ more')
  end.
  cbn [log]. symmetry. apply app_assoc.
Qed.

(** With every tile of the zoom levels in the archive there is nothing to
    download: the loop leaves the state as it is. *)
Lemma zoom_loop_nothing_to_do : forall tan asinh env key zooms st,
  (forall zoom rect t,
      In zoom zooms -> tile_rect tan asinh zoom = Some rect ->
      In t (tiles_in_bounds zoom rect key) -> args_exist (conn st) t = true) ->
  fst (zoom_loop tan asinh env key zooms st) = st.
Proof.
  induction zooms as [|zoom zooms IH]; intros st Hall; [reflexivity|].
  cbn [zoom_loop].
  destruct (tile_rect tan asinh zoom) as [rect|] eqn:Hrect; [|reflexivity].
  rewrite partition_as_filter.
  assert (Hnil : filter (fun t => negb (args_exist (conn st) t))
                   (tiles_in_bounds zoom rect key) = []).
  { destruct (filter _ _) as [|t l] eqn:Hf; [reflexivity|].
    assert (Hin : In t (t :: l)) by (left; reflexivity).
    rewrite <- Hf in Hin. apply filter_In in Hin. destruct Hin as [Hin Hneg].
    rewrite (Hall zoom rect t) in Hneg; [discriminate|left; reflexivity|exact Hrect|exact Hin]. }
  rewrite Hnil. cbn. apply IH. intros z r t Hz. apply Hall. right. exact Hz.
Qed.

Lemma open_archive_resume : forall db min_zoom max_zoom,
  open_archive (Some db) min_zoom max_zoom
  = mk_run_state (mk_connection db db) [] 0.
Proof. reflexivity. Qed.

Lemma open_archive_new : forall min_zoom max_zoom,
  tiles (disk (conn (open_archive None min_zoom max_zoom))) = []
  /\ tiles (work (conn (open_archive None min_zoom max_zoom))) = []
  /\ exists more, log (open_archive None min_zoom max_zoom)
                  = SqlCreateSchema :: SqlInsertMetadata "name" "NZ Emergency Management"
                      :: more.
Proof. intros. repeat split. eexists. reflexivity. Qed.

Lemma run_archive : forall tan asinh env file key min_zoom max_zoom,
  archive (create_nationalmap_mbtiles tan asinh env file key min_zoom max_zoom)
  = disk (conn (fst (zoom_loop tan asinh env key (range min_zoom (max_zoom + 1))
                       (open_archive file min_zoom max_zoom))))
  /\ exists closing,
       events (create_nationalmap_mbtiles tan asinh env file key min_zoom max_zoom)
       = log (fst (zoom_loop tan asinh env key (range min_zoom (max_zoom + 1))
                     (open_archive file min_zoom max_zoom))) ++ closing
       /\ (closing = [] \/ closing = [SqlClose]).
Proof.
  intros. unfold create_nationalmap_mbtiles.
  destruct (zoom_loop _ _ _ _ _ _) as [st [|]]; cbn; split; try reflexivity.
  - exists []. rewrite app_nil_r. auto.
  - exists [SqlClose]. auto.
Qed.

Lemma index_kept_insert : forall db0 cn row,
  index_kept db0 cn -> index_kept db0 (fst (insert_tile cn row)).
Proof.
  intros db0 cn row [He Hu]. split;
    [apply insert_tile_extends, He|apply insert_tile_unique, Hu].
Qed.

Lemma index_kept_commit : forall db0 cn,
  index_kept db0 cn -> index_kept db0 (commit cn).
Proof. intros db0 cn [He Hu]. split; [apply commit_extends, He|exact Hu]. Qed.

Lemma metadata_kept_insert : forall db0 cn row,
  metadata_kept db0 cn -> metadata_kept db0 (fst (insert_tile cn row)).
Proof.
  intros db0 cn [[[z x] r] d] [Hd Hw].
  destruct (insert_tile_work cn z x r d) as (Hd' & Hw' & _).
  split; [rewrite Hd'; exact Hd|rewrite Hw'; exact Hw].
Qed.

Lemma metadata_kept_commit : forall db0 cn,
  metadata_kept db0 cn -> metadata_kept db0 (commit cn).
Proof. intros db0 cn [Hd Hw]. split; exact Hw. Qed.

(** A tile of [db0] is seen by every connection that extends [db0]. *)
Lemma extends_exists : forall db0 cn z x y,
  extends db0 cn -> tile_exists cn z x y = false -> archived db0 z x y = false.
Proof.
  intros db0 cn z x y (c & p & _ & Hw). unfold archived, tile_exists. cbn [work].
  unfold select_tile. rewrite Hw, existsb_app.
  destruct (existsb _ (tiles db0)); [discriminate|reflexivity].
Qed.

Lemma skips_archived_fetch : forall db0 cn z x y e,
  extends db0 cn -> tile_exists cn z x y = false ->
  event_tile e = Some (z, x, y) -> skips_archived db0 e.
Proof.
  intros db0 cn z x y e He Hex Het. unfold skips_archived. rewrite Het.
  eapply extends_exists; eauto.
Qed.

Lemma skips_archived_store : forall db0 e,
  event_tile e = None -> sql_setup e = false -> skips_archived db0 e.
Proof. intros db0 e Het Hs. unfold skips_archived. rewrite Het. exact Hs. Qed.

Lemma count_key_prefix : forall z x r l1 l2,
  (count_key z x r l1 <= count_key z x r (l1 ++ l2))%nat.
Proof. intros. rewrite count_key_app. lia. Qed.

(** What a run on an existing archive [db] leaves and does. *)
Lemma resumed_run : forall tan asinh env db key min_zoom max_zoom,
  let r := create_nationalmap_mbtiles tan asinh env (Some db) key min_zoom max_zoom in
  (exists new, tiles (archive r) = tiles db ++ new)
  /\ metadata (archive r) = metadata db
  /\ Forall (skips_archived db) (events r).
Proof.
  intros tan asinh env db key min_zoom max_zoom r. subst r.
  destruct (run_archive tan asinh env (Some db) key min_zoom max_zoom)
    as (-> & closing & -> & Hclosing).
  rewrite open_archive_resume.
  set (st0 := mk_run_state (mk_connection db db) [] 0).
  assert (Ht0 : extends db (conn st0)).
  { exists [], []. cbn. rewrite app_nil_r. auto. }
  destruct (zoom_loop_invariant tan asinh env (extends db) (skips_archived db)
              (insert_tile_extends db) (commit_extends db)
              (skips_archived_store db) (skips_archived_fetch db)
              key (range min_zoom (max_zoom + 1)) st0 Ht0 (Forall_nil _))
    as [(c & p & Hd & Hw) Hlog].
  destruct (zoom_loop_invariant tan asinh env (metadata_kept db) (fun _ => True)
              (metadata_kept_insert db) (metadata_kept_commit db)
              (fun _ _ _ => Logic.I) (fun _ _ _ _ _ _ _ _ => Logic.I)
              key (range min_zoom (max_zoom + 1)) st0 (conj eq_refl eq_refl)
              (Forall_nil _))
    as [[Hm _] _].
  split; [exists c; exact Hd|]. split; [exact Hm|].
  apply Forall_app. split; [exact Hlog|].
  destruct Hclosing as [->| ->]; repeat constructor.
Qed.

(** A run leaves the index unique, on a new archive as on one that had it. *)
Lemma run_unique : forall tan asinh env file key min_zoom max_zoom,
  match file with Some db => unique_keys (tiles db) | None => True end ->
  unique_keys
    (tiles (archive (create_nationalmap_mbtiles tan asinh env file key min_zoom max_zoom))).
Proof.
  intros tan asinh env file key min_zoom max_zoom Hu.
  destruct (run_archive tan asinh env file key min_zoom max_zoom) as (-> & _).
  set (db0 := match file with Some db => db | None => empty_database end).
  assert (Ht0 : index_kept db0 (conn (open_archive file min_zoom max_zoom))).
  { destruct file as [db|].
    - split; [|exact Hu]. exists [], []. cbn. rewrite app_nil_r. auto.
    - destruct (open_archive_new min_zoom max_zoom) as (Hd0 & Hw0 & _). split.
      + exists [], []. rewrite Hd0, Hw0. auto.
      + rewrite Hw0. intros z x r. cbn. lia. }
  destruct (zoom_loop_invariant tan asinh env (index_kept db0) (fun _ => True)
              (index_kept_insert _) (index_kept_commit _)
              (fun _ _ _ => Logic.I) (fun _ _ _ _ _ _ _ _ => Logic.I)
              key (range min_zoom (max_zoom + 1)) _ Ht0
              (proj2 (Forall_forall _ _) (fun _ _ => Logic.I)))
    as [[(c & p & Hd & Hw) Hu'] _].
  intros z x r. rewrite Hd. specialize (Hu' z x r). rewrite Hw, app_assoc in Hu'.
  assert (H := count_key_prefix z x r (tiles db0 ++ c) p). lia.
Qed.

Lemma rows_at_zoom_app : forall z m l1 l2,
  (rows_at_zoom z (mk_database m l1) <= rows_at_zoom z (mk_database m (l1 ++ l2)))%nat.
Proof. intros. unfold rows_at_zoom. cbn. rewrite filter_app, length_app. lia. Qed.

(** C1 (amended): a second run on the archive a first run left requests no
    tile that the archive holds, keeps every row of the archive and adds no
    second row for a key, so that no zoom level loses rows; and when no tile
    of the zoom levels is missing from the archive, the second run requests
    nothing and leaves the archive as it was. *)
Theorem second_run_skips_archived_tiles :
  forall tan asinh env1 env2 file key min_zoom max_zoom,
    match file with Some db => unique_keys (tiles db) | None => True end ->
    let first :=
      create_nationalmap_mbtiles tan asinh env1 file key min_zoom max_zoom in
    let second :=
      create_nationalmap_mbtiles tan asinh env2 (Some (archive first)) key
        min_zoom max_zoom in
    (forall z x y a,
        In (HttpGet z x y a) (events second) -> archived (archive first) z x y = false)
    /\ (exists new, tiles (archive second) = tiles (archive first) ++ new)
    /\ unique_keys (tiles (archive second))
    /\ (forall z, (rows_at_zoom z (archive first) <= rows_at_zoom z (archive second))%nat)
    /\ ((forall zoom x_min x_max y_min y_max x y,
            min_zoom <= zoom <= max_zoom ->
            tile_rect tan asinh zoom = Some (x_min, x_max, y_min, y_max) ->
            x_min <= x <= x_max -> y_min <= y <= y_max ->
            archived (archive first) zoom x y = true) ->
        gets (events second) = 0%nat /\ archive second = archive first).
Proof.
  intros tan asinh env1 env2 file key min_zoom max_zoom Hfile first second.
  assert (Hu : unique_keys (tiles (archive first))) by (apply run_unique, Hfile).
  assert (Hu2 : unique_keys (tiles (archive second))) by (apply run_unique, Hu).
  destruct (resumed_run tan asinh env2 (archive first) key min_zoom max_zoom)
    as ([new Hnew] & Hm & Hlog).
  fold second in Hnew, Hm, Hlog.
  split; [|split; [exists new; exact Hnew|split; [exact Hu2|split]]].
  - intros z x y a Hin.
    apply (proj1 (Forall_forall _ _) Hlog) in Hin. exact Hin.
  - intros z. destruct (archive first) as [m1 l1]. destruct (archive second) as [m2 l2].
    cbn in Hnew, Hm. subst l2 m2. apply rows_at_zoom_app.
  - intros Hall.
    destruct (run_archive tan asinh env2 (Some (archive first)) key min_zoom max_zoom)
      as (Harch & closing & Hev & Hclosing).
    fold second in Harch, Hev.
    rewrite open_archive_resume in Harch, Hev.
    assert (Hall' : forall zoom rect t,
              In zoom (range min_zoom (max_zoom + 1)) ->
              tile_rect tan asinh zoom = Some rect ->
              In t (tiles_in_bounds zoom rect key) ->
              args_exist (mk_connection (archive first) (archive first)) t = true).
    { intros zoom [[[x_min x_max] y_min] y_max] [[[z x] y] k] Hz Hrect Ht.
      apply range_In in Hz. apply tiles_in_bounds_In in Ht.
      destruct Ht as (-> & -> & Hx & Hy).
      apply (Hall zoom x_min x_max y_min y_max x y); auto. lia. }
    rewrite zoom_loop_nothing_to_do in Harch, Hev by exact Hall'.
    cbn in Harch, Hev. split; [|exact Harch].
    rewrite Hev. destruct Hclosing as [->| ->]; reflexivity.
Qed.

Lemma second_run_skips_archived_tiles_witness :
  archived (archive (run (always (Response 200 png)) None "key" 3 3)) 3 0 4 = true
  /\ ~ In (HttpGet 3 0 4 0)
         (events (run (always (Response 200 png))
                    (Some (archive (run (always (Response 200 png)) None "key" 3 3)))
                    "key" 3 3)).
Proof.
  assert (Harch : archived (archive (run (always (Response 200 png)) None "key" 3 3))
                    3 0 4 = true) by (vm_compute; reflexivity).
  split; [exact Harch|]. intros Hin.
  pose proof (second_run_skips_archived_tiles Coordinate.libm_tan Coordinate.libm_asinh
                (always (Response 200 png)) (always (Response 200 png)) None "key" 3 3
                Logic.I) as H.
  cbv zeta in H. destruct H as (Hskip & _).
  apply Hskip in Hin. rewrite Harch in Hin. discriminate Hin.
Defined.

(** C1, as stated, fails: a first run on a new archive under a server that
    rate-limits every request leaves no row at zoom level 3; the second run
    on that archive with the same parameters, the server now answering,
    leaves ten. *)
Lemma second_run_changes_row_count :
  rows_at_zoom 3 (archive (run (always (Response 429 [])) None "key" 3 3)) = 0%nat
  /\ rows_at_zoom 3
       (archive (run (always (Response 200 png))
                   (Some (archive (run (always (Response 429 [])) None "key" 3 3)))
                   "key" 3 3))
     = 10%nat.
Proof. split; vm_compute; reflexivity. Qed.

(** C9: the schema is created and metadata rows are inserted exactly on a
    run that finds no archive file.  A run on an existing archive executes
    neither statement, leaves the metadata table as it was and keeps every
    tile row, in place. *)
Theorem resume_keeps_schema_and_metadata :
  forall tan asinh env file key min_zoom max_zoom,
    (In SqlCreateSchema
        (events (create_nationalmap_mbtiles tan asinh env file key min_zoom max_zoom))
     <-> file = None)
    /\ ((exists name value,
            In (SqlInsertMetadata name value)
               (events (create_nationalmap_mbtiles tan asinh env file key min_zoom max_zoom)))
        <-> file = None)
    /\ (forall db,
          file = Some db ->
          Forall (fun e => sql_setup e = false)
            (events (create_nationalmap_mbtiles tan asinh env file key min_zoom max_zoom))
          /\ metadata (archive (create_nationalmap_mbtiles tan asinh env file key
                                  min_zoom max_zoom))
             = metadata db
          /\ exists new,
               tiles (archive (create_nationalmap_mbtiles tan asinh env file key
                                 min_zoom max_zoom))
               = tiles db ++ new).
Proof.
  intros tan asinh env file key min_zoom max_zoom.
  assert (Hsome : forall db e, file = Some db ->
            In e (events (create_nationalmap_mbtiles tan asinh env file key
                            min_zoom max_zoom)) ->
            event_tile e = None -> sql_setup e = false).
  { intros db e -> Hin Het.
    destruct (resumed_run tan asinh env db key min_zoom max_zoom) as (_ & _ & Hlog).
    apply (proj1 (Forall_forall _ _) Hlog) in Hin.
    unfold skips_archived in Hin. rewrite Het in Hin. exact Hin. }
  assert (Hnone : file = None ->
            exists more,
              events (create_nationalmap_mbtiles tan asinh env file key min_zoom max_zoom)
              = SqlCreateSchema :: SqlInsertMetadata "name" "NZ Emergency Management"
                  :: more).
  { intros ->.
    destruct (run_archive tan asinh env None key min_zoom max_zoom)
      as (_ & closing & -> & _).
    destruct (zoom_loop_log tan asinh env key (range min_zoom (max_zoom + 1))
                (open_archive None min_zoom max_zoom)) as [more ->].
    destruct (open_archive_new min_zoom max_zoom) as (_ & _ & more0 & ->).
    eexists. cbn. reflexivity. }
  split; [|split].
  - split.
    + intros Hin. destruct file as [db|]; [|reflexivity].
      specialize (Hsome db SqlCreateSchema eq_refl Hin eq_refl). discriminate.
    + intros Hf. destruct (Hnone Hf) as [more ->]. left. reflexivity.
  - split.
    + intros (name & value & Hin). destruct file as [db|]; [|reflexivity].
      specialize (Hsome db _ eq_refl Hin eq_refl). discriminate.
    + intros Hf. destruct (Hnone Hf) as [more ->]. eexists. eexists.
      right. left. reflexivity.
  - intros db ->.
    destruct (resumed_run tan asinh env db key min_zoom max_zoom) as (Hnew & Hm & Hlog).
    split; [|split; [exact Hm|exact Hnew]].
    apply Forall_forall. intros e Hin.
    apply (proj1 (Forall_forall _ _) Hlog) in Hin. unfold skips_archived in Hin.
    destruct e; try reflexivity; cbn in Hin; exact Hin.
Qed.

(** C3: on a new archive, with a server that answers every request, the run
    over zoom level 0 counts its one tile as processed and returns, yet no
    commit was made and the file holds no tile (and no metadata) row; over
    zoom level 3 it counts 16 tiles and the file holds the 10 committed by
    the one periodic commit. *)
Theorem tiles_after_last_commit_are_lost :
  processed (run (always (Response 200 png)) None "key" 0 0) = 1
  /\ returned (run (always (Response 200 png)) None "key" 0 0) = true
  /\ In (SqlInsertTile 0 0 0 png)
        (events (run (always (Response 200 png)) None "key" 0 0))
  /\ ~ In SqlCommit (events (run (always (Response 200 png)) None "key" 0 0))
  /\ archive (run (always (Response 200 png)) None "key" 0 0) = empty_database
  /\ processed (run (always (Response 200 png)) None "key" 3 3) = 16
  /\ rows_at_zoom 3 (archive (run (always (Response 200 png)) None "key" 3 3)) = 10%nat.
Proof.
  split; [vm_compute; reflexivity|]. split; [vm_compute; reflexivity|].
  split; [vm_compute; auto 20|]. split.
  - vm_compute. intros H.
    repeat (destruct H as [H|H]; [discriminate H|]). exact H.
  - repeat split; vm_compute; reflexivity.
Qed.



(** * Further properties *)

(** ** The fetch loop: how it ends *)

Lemma success_stops : forall r, success r = true -> goes_on r = false.
Proof.
  intros [s c| | |]; cbn; try discriminate. intros ->. reflexivity.
Qed.

Lemma success_content : forall r data,
  (success r = true /\ r = Response 200 data) <-> (r = Response 200 data /\ data <> []).
Proof.
  intros r data. split.
  - intros [Hs ->]. split; [reflexivity|]. intros ->. discriminate.
  - intros [-> Hne]. split; [|reflexivity]. destruct data; [contradiction|reflexivity].
Qed.

(** The payload returned is that of the first attempt answered 200 with a
    body, which must be within the budget and preceded only by attempts
    that let the loop go on. *)
Lemma attempts_result : forall env zoom x y max_retries todo a data,
  snd (attempts env zoom x y max_retries todo a) = Some data <->
  exists k, a <= k < a + Z.of_nat todo
            /\ server env zoom x y k = Response 200 data /\ data <> []
            /\ forall j, a <= j < k -> goes_on (server env zoom x y j) = true.
Proof.
  intros env zoom x y max_retries.
  induction todo as [|todo IH]; intros a data.
  - cbn. split; [discriminate|]. intros (k & Hk & _). lia.
  - rewrite attempts_S.
    destruct (success (server env zoom x y a)) eqn:Hs;
      [|destruct (goes_on (server env zoom x y a)) eqn:Hg]; cbn [snd].
    + assert (Hg := success_stops _ Hs). split.
      * destruct (server env zoom x y a) as [s c| | |] eqn:Hsrv; try discriminate.
        intros [= ->]. exists a. cbn in Hs. apply andb_prop in Hs.
        destruct Hs as [Hs Hl]. apply Z.eqb_eq in Hs. subst s.
        repeat split; try lia.
        -- congruence.
        -- intros ->. discriminate.
      * intros (k & Hk & Hsrv & Hne & Hj).
        destruct (Z.eq_dec k a) as [->|Hne'].
        -- rewrite Hsrv. reflexivity.
        -- specialize (Hj a ltac:(lia)). congruence.
    + rewrite IH. split.
      * intros (k & Hk & Hsrv & Hne & Hj). exists k. repeat split; try lia; auto.
        intros j Hjr. destruct (Z.eq_dec j a) as [->|Hne']; [exact Hg|]. apply Hj. lia.
      * intros (k & Hk & Hsrv & Hne & Hj).
        destruct (Z.eq_dec k a) as [->|Hne'].
        -- rewrite Hsrv in Hs. destruct data; [contradiction|discriminate].
        -- exists k. repeat split; try lia; auto. intros j Hjr. apply Hj. lia.
    + split; [discriminate|].
      intros (k & Hk & Hsrv & Hne & Hj).
      destruct (Z.eq_dec k a) as [->|Hne'].
      * rewrite Hsrv in Hs. destruct data; [contradiction|discriminate].
      * specialize (Hj a ltac:(lia)). congruence.
Qed.

(** X1: [download_wms_tile] returns a payload exactly when some attempt
    within the budget is answered 200 with a non-empty body after attempts
    that all let the loop go on; the payload is that body, and no request is
    made after the successful one. *)
Theorem first_success_is_returned :
  forall env zoom x y key max_retries data,
    (snd (download_wms_tile env zoom x y key max_retries) = Some data <->
     exists k, 0 <= k < max_retries
               /\ server env zoom x y k = Response 200 data /\ data <> []
               /\ forall j, 0 <= j < k -> goes_on (server env zoom x y j) = true)
    /\ (forall k k',
          In (HttpGet zoom x y k) (fst (download_wms_tile env zoom x y key max_retries)) ->
          success (server env zoom x y k) = true -> k < k' ->
          ~ In (HttpGet zoom x y k') (fst (download_wms_tile env zoom x y key max_retries))).
Proof.
  intros env zoom x y key max_retries data. unfold download_wms_tile. split.
  - rewrite attempts_result. split; intros (k & Hk & H); exists k; (split; [lia|exact H]).
  - intros k k' Hget Hs Hlt Hin. apply get_reached in Hin, Hget.
    destruct Hin as (_ & _ & _ & Hk' & Hj). destruct Hget as (_ & _ & _ & Hk & _).
    apply success_stops in Hs. specialize (Hj k ltac:(lia)). congruence.
Qed.

Lemma error_logged : forall env zoom x y max_retries todo a k,
  In (HttpGet zoom x y k) (fst (attempts env zoom x y max_retries todo a)) ->
  server env zoom x y k = OtherException ->
  In (LogError zoom x y) (fst (attempts env zoom x y max_retries todo a)).
Proof.
  intros env zoom x y max_retries.
  induction todo as [|todo IH]; intros a k; [intros []|].
  rewrite attempts_S.
  destruct (success (server env zoom x y a)) eqn:Hs;
    [|destruct (goes_on (server env zoom x y a)) eqn:Hg]; cbn [fst In].
  - intros [H|[]] Hk. injection H as <-. rewrite Hk in Hs. discriminate.
  - rewrite !in_app_iff. intros [H|[H|H]] Hk.
    + injection H as <-. rewrite Hk in Hg. discriminate.
    + apply after_failure_tile in H. destruct H as [_ H]. discriminate.
    + right. right. eapply IH; eauto.
  - intros _ _. right. left. reflexivity.
Qed.

(** X2: an exception other than a timeout or a connection error ends the
    fetch at once: it is printed, no wait and no further request follow, and
    nothing is returned. *)
Theorem unexpected_exception_ends_the_fetch :
  forall env zoom x y key max_retries k,
    In (HttpGet zoom x y k) (fst (download_wms_tile env zoom x y key max_retries)) ->
    server env zoom x y k = OtherException ->
    In (LogError zoom x y) (fst (download_wms_tile env zoom x y key max_retries))
    /\ snd (download_wms_tile env zoom x y key max_retries) = None
    /\ (forall w, ~ In (Sleep zoom x y k w)
                      (fst (download_wms_tile env zoom x y key max_retries)))
    /\ (forall k', k < k' ->
          ~ In (HttpGet zoom x y k')
               (fst (download_wms_tile env zoom x y key max_retries))).
Proof.
  intros env zoom x y key max_retries k Hget Hsrv. unfold download_wms_tile in *.
  split; [eapply error_logged; eauto|].
  assert (Hstop : goes_on (server env zoom x y k) = false) by (rewrite Hsrv; reflexivity).
  apply get_reached in Hget. destruct Hget as (_ & _ & _ & Hk & Hbefore).
  split; [|split].
  - destruct (snd (attempts env zoom x y max_retries (Z.to_nat max_retries) 0))
      as [data|] eqn:Hres; [|reflexivity].
    apply attempts_result in Hres. destruct Hres as (k2 & Hk2 & Hsrv2 & Hne & Hj).
    destruct (Z.lt_trichotomy k2 k) as [Hlt|[->|Hgt]].
    + specialize (Hbefore k2 ltac:(lia)). rewrite Hsrv2 in Hbefore.
      destruct data; [contradiction|discriminate].
    + congruence.
    + specialize (Hj k ltac:(lia)). congruence.
  - intros w Hin. apply sleep_reached in Hin.
    destruct Hin as (_ & _ & _ & [H|[H _]]); rewrite Hsrv in H; discriminate.
  - intros k' Hlt Hin. apply get_reached in Hin.
    destruct Hin as (_ & _ & _ & _ & Hj). specialize (Hj k ltac:(lia)). congruence.
Qed.

Lemma unexpected_exception_ends_the_fetch_witness :
  fst (download_wms_tile (always OtherException) 3 2 5 "key" 5)
  = [HttpGet 3 2 5 0; LogError 3 2 5]
  /\ snd (download_wms_tile (always OtherException) 3 2 5 "key" 5) = None.
Proof.
  split; [reflexivity|].
  apply (unexpected_exception_ends_the_fetch (always OtherException) 3 2 5 "key" 5 0);
    [in_list|reflexivity].
Defined.

(** ** The fetch loop: time spent waiting *)

Lemma total_wait_app : forall l1 l2,
  (total_wait (l1 ++ l2) == total_wait l1 + total_wait l2)%Q.
Proof.
  induction l1 as [|e l1 IH]; intros l2; cbn [app total_wait fold_right].
  - rewrite Qplus_0_l. reflexivity.
  - fold (total_wait (l1 ++ l2)). fold (total_wait l1).
    destruct e; try apply IH. rewrite IH. apply Qplus_assoc.
Qed.

Lemma inject_Z_nonneg : forall z, 0 <= z -> (0 <= inject_Z z)%Q.
Proof. intros z Hz. unfold Qle. cbn. lia. Qed.

Lemma total_wait_after_failure : forall env zoom x y max_retries a,
  (uniform env zoom x y a < 1)%Q -> (0 <= uniform env zoom x y a)%Q -> 0 <= a ->
  (0 <= total_wait (after_failure env zoom x y max_retries a)
   /\ total_wait (after_failure env zoom x y max_retries a) <= inject_Z (2 ^ a + 1))%Q.
Proof.
  intros env zoom x y max_retries a Hlt Hge Ha.
  assert (Hp : 0 < 2 ^ a) by (apply Z.pow_pos_nonneg; lia).
  assert (Hw : (0 <= inject_Z (2 ^ a) + uniform env zoom x y a + 0
                /\ inject_Z (2 ^ a) + uniform env zoom x y a + 0 <= inject_Z (2 ^ a + 1))%Q).
  { rewrite inject_Z_plus, Qplus_0_r. split.
    - apply Qle_trans with (inject_Z (2 ^ a) + 0)%Q.
      + rewrite Qplus_0_r. apply inject_Z_nonneg. lia.
      + apply Qplus_le_r. exact Hge.
    - apply Qplus_le_r. apply Qlt_le_weak. exact Hlt. }
  assert (Hz : (0 <= 0 /\ 0 <= inject_Z (2 ^ a + 1))%Q).
  { split; [apply Qle_refl|]. apply inject_Z_nonneg. lia. }
  unfold after_failure.
  destruct (server env zoom x y a) as [s c| | |];
    [destruct (s =? 429)| | |]; try destruct (a <? max_retries - 1);
    cbn [total_wait fold_right]; auto.
Qed.

Lemma total_wait_attempts : forall env zoom x y max_retries,
  (forall a, 0 <= uniform env zoom x y a < 1)%Q ->
  forall todo a, 0 <= a ->
    (total_wait (fst (attempts env zoom x y max_retries todo a))
     <= inject_Z (2 ^ (a + Z.of_nat todo) - 2 ^ a + Z.of_nat todo))%Q.
Proof.
  intros env zoom x y max_retries Hu.
  induction todo as [|todo IH]; intros a Ha.
  - cbn [attempts fst total_wait fold_right]. apply inject_Z_nonneg.
    cbn [Z.of_nat]. rewrite !Z.add_0_r. lia.
  - assert (Hp : 0 < 2 ^ a) by (apply Z.pow_pos_nonneg; lia).
    assert (Hpow : 2 ^ (a + Z.of_nat (S todo)) = 2 ^ (a + 1 + Z.of_nat todo)).
    { f_equal. lia. }
    assert (Hmono : 2 ^ a <= 2 ^ (a + 1 + Z.of_nat todo)).
    { apply Z.pow_le_mono_r; lia. }
    assert (Hnn : (0 <= inject_Z (2 ^ (a + Z.of_nat (S todo)) - 2 ^ a + Z.of_nat (S todo)))%Q).
    { apply inject_Z_nonneg. lia. }
    rewrite attempts_S.
    destruct (success (server env zoom x y a));
      [|destruct (goes_on (server env zoom x y a))]; cbn [fst];
      [exact Hnn| |exact Hnn].
    change (HttpGet zoom x y a :: ?l) with ([HttpGet zoom x y a] ++ l).
    rewrite !total_wait_app. cbn [total_wait fold_right]. rewrite Qplus_0_l.
    destruct (Hu a) as [Hu1 Hu2].
    destruct (total_wait_after_failure env zoom x y max_retries a Hu2 Hu1 Ha) as [_ H1].
    specialize (IH (a + 1) ltac:(lia)).
    eapply Qle_trans; [apply Qplus_le_compat; [exact H1|exact IH]|].
    rewrite <- inject_Z_plus, <- Zle_Qle.
    rewrite Hpow. replace (2 ^ (a + 1)) with (2 * 2 ^ a) by (rewrite Z.pow_add_r; lia).
    lia.
Qed.

(** X3: with draws in [0, 1), a fetch with a budget of [max_retries >= 0]
    attempts sleeps at most [2 ^ max_retries - 1 + max_retries] seconds in
    all. *)
Theorem total_wait_is_bounded :
  forall env zoom x y key max_retries,
    (forall a, 0 <= uniform env zoom x y a < 1)%Q ->
    0 <= max_retries ->
    (total_wait (fst (download_wms_tile env zoom x y key max_retries))
     <= inject_Z (2 ^ max_retries - 1 + max_retries))%Q.
Proof.
  intros env zoom x y key max_retries Hu Hm. unfold download_wms_tile.
  eapply Qle_trans; [apply (total_wait_attempts env zoom x y max_retries Hu); lia|].
  rewrite <- Zle_Qle. rewrite Z2Nat.id by lia. cbn. lia.
Qed.

Lemma total_wait_is_bounded_witness :
  (total_wait (fst (download_wms_tile (always (Response 429 [])) 3 2 5 "key" 5))
   <= inject_Z 36)%Q.
Proof.
  apply (total_wait_is_bounded (always (Response 429 [])) 3 2 5 "key" 5); [|lia].
  intros a. cbn. split; [discriminate|reflexivity].
Defined.

(** ** The tile store: what a drained queue changes *)

Lemma drain_queue_appends : forall q cn,
  exists new,
    tiles (work (fst (drain_queue q cn))) = tiles (work cn) ++ new
    /\ disk (fst (drain_queue q cn)) = disk cn
    /\ metadata (work (fst (drain_queue q cn))) = metadata (work cn)
    /\ forall t, In t new ->
         In (zoom_level t, tile_column t, tile_row t, tile_data t) q.
Proof.
  induction q as [|[[[z x] r] d] q IH]; intros cn.
  - exists []. cbn. rewrite app_nil_r. repeat split. intros t [].
  - rewrite drain_queue_cons. cbn [fst].
    destruct (insert_tile_work cn z x r d) as (Hd & Hm & Hw).
    destruct (IH (fst (insert_tile cn (z, x, r, d)))) as (new & Hw' & Hd' & Hm' & Hnew).
    exists ((if select_tile (work cn) z x r then [] else [mk_tile z x r d]) ++ new).
    rewrite Hw', Hd', Hm', Hw, Hd, Hm, <- app_assoc. repeat split.
    intros t Hin. apply in_app_or in Hin. destruct Hin as [Hin|Hin].
    + destruct (select_tile (work cn) z x r); [destruct Hin|].
      destruct Hin as [<-|[]]. left. reflexivity.
    + right. apply Hnew, Hin.
Qed.

Lemma count_key_In : forall z x r rows t,
  In t rows -> same_key z x r t = true -> (1 <= count_key z x r rows)%nat.
Proof.
  intros z x r rows t Hin Hk. apply in_split in Hin. destruct Hin as (l1 & l2 & ->).
  rewrite count_key_app. unfold count_key at 2. cbn [filter]. rewrite Hk. cbn. lia.
Qed.

(** Under the unique index two rows with one key are one row. *)
Lemma unique_keys_same_row : forall rows t t',
  unique_keys rows -> In t rows -> In t' rows ->
  same_key (zoom_level t) (tile_column t) (tile_row t) t' = true -> t' = t.
Proof.
  intros rows t t' Hu Hin Hin' Hk.
  assert (Hkt : same_key (zoom_level t) (tile_column t) (tile_row t) t = true).
  { apply same_key_spec. auto. }
  apply in_split in Hin. destruct Hin as (l1 & l2 & ->).
  specialize (Hu (zoom_level t) (tile_column t) (tile_row t)).
  rewrite count_key_app in Hu. unfold count_key at 2 in Hu. cbn [filter] in Hu.
  rewrite Hkt in Hu. cbn [List.length] in Hu.
  apply in_app_or in Hin'. destruct Hin' as [Hin'|[Hin'|Hin']].
  - assert (H := count_key_In _ _ _ _ _ Hin' Hk). lia.
  - symmetry. exact Hin'.
  - assert (H := count_key_In _ _ _ _ _ Hin' Hk). fold (count_key (zoom_level t) (tile_column t) (tile_row t) l2) in Hu. lia.
Qed.

(** A key that is neither present nor queued is absent afterwards. *)
Lemma drain_queue_absent : forall q cn z x r,
  select_tile (work cn) z x r = false ->
  (forall d, ~ In (z, x, r, d) q) ->
  select_tile (work (fst (drain_queue q cn))) z x r = false.
Proof.
  intros q cn z x r Habs Hq.
  destruct (drain_queue_appends q cn) as (new & Hw & _ & _ & Hnew).
  unfold select_tile in *. rewrite Hw, existsb_app, Habs.
  cbn [orb]. destruct (existsb (same_key z x r) new) eqn:Hex; [|reflexivity].
  apply existsb_exists in Hex. destruct Hex as (t' & Ht' & Hk).
  apply same_key_spec in Hk. destruct Hk as (<- & <- & <-).
  exfalso. exact (Hq _ (Hnew t' Ht')).
Qed.

(** X4: draining the queue never replaces a row.  A row that the connection
    saw before is still there, and it is the only row of its key, whatever
    payloads were queued for that key (the first write wins); the committed
    state is untouched; and a key that was neither present nor queued is
    still absent. *)
Theorem first_write_wins :
  forall tile_queue cn t,
    unique_keys (tiles (work cn)) ->
    In t (tiles (work cn)) ->
    In t (tiles (work (fst (drain_queue tile_queue cn))))
    /\ (forall t',
          In t' (tiles (work (fst (drain_queue tile_queue cn)))) ->
          same_key (zoom_level t) (tile_column t) (tile_row t) t' = true ->
          t' = t)
    /\ disk (fst (drain_queue tile_queue cn)) = disk cn
    /\ (forall z x r,
          select_tile (work cn) z x r = false ->
          (forall d, ~ In (z, x, r, d) tile_queue) ->
          select_tile (work (fst (drain_queue tile_queue cn))) z x r = false).
Proof.
  intros tile_queue cn t Hu Hin.
  destruct (drain_queue_appends tile_queue cn) as (new & Hw & Hd & _ & Hnew).
  assert (Hin' : In t (tiles (work (fst (drain_queue tile_queue cn))))).
  { rewrite Hw. apply in_or_app. left. exact Hin. }
  split; [exact Hin'|]. split; [|split; [exact Hd|]].
  - intros t' Ht' Hk.
    apply (unique_keys_same_row _ t t' (drain_queue_unique tile_queue cn Hu) Hin' Ht' Hk).
  - intros z x r Habs Hq. apply drain_queue_absent; assumption.
Qed.

Lemma first_write_wins_witness :
  In (mk_tile 3 2 2 png)
     (tiles (work (fst (drain_queue [(3, 2, 2, [Byte.x00]); (3, 4, 2, png)]
                          (mk_connection empty_database
                             (mk_database [] [mk_tile 3 2 2 png])))))).
Proof.
  apply (first_write_wins [(3, 2, 2, [Byte.x00]); (3, 4, 2, png)]
           (mk_connection empty_database (mk_database [] [mk_tile 3 2 2 png]))
           (mk_tile 3 2 2 png)).
  - intros z x r. unfold count_key. cbn.
    destruct (same_key z x r (mk_tile 3 2 2 png)); cbn; lia.
  - left. reflexivity.
Defined.

(** ** The orchestrator: what a zoom level adds *)

(** Invariants of the loop over the completed futures, the rows queued by
    the workers satisfying [R]. *)
Section LevelInvariants.

Variable env : environment.
Variable I : connection -> Prop.
Variable P : event -> Prop.
Variable R : Z * Z * Z * payload -> Prop.

Hypothesis I_insert : forall cn row, R row -> I cn -> I (fst (insert_tile cn row)).
Hypothesis I_commit : forall cn, I cn -> I (commit cn).
Hypothesis P_insert : forall z x r d, R (z, x, r, d) -> P (SqlInsertTile z x r d).
Hypothesis P_duplicate : forall z x r d, R (z, x, r, d) -> P (LogDuplicate z x r).
Hypothesis P_commit : P SqlCommit.

Lemma drain_queue_rows : forall q cn,
  Forall R q -> I cn ->
  I (fst (drain_queue q cn)) /\ Forall P (snd (drain_queue q cn)).
Proof.
  induction q as [|[[[z x] r] d] q IH]; intros cn Hq Hcn; [cbn; auto|].
  inversion Hq as [|? ? Hrow Hq']; subst.
  rewrite drain_queue_cons. cbn [fst snd].
  destruct (IH (fst (insert_tile cn (z, x, r, d))) Hq' (I_insert _ _ Hrow Hcn))
    as [HI HP].
  split; [exact HI|]. apply Forall_app. split; [|exact HP].
  rewrite insert_tile_log. destruct (select_tile (work cn) z x r);
    constructor; eauto.
Qed.

Lemma queue_of_rows : forall ws,
  (forall w row, In w ws -> queued w = Some row -> R row) -> Forall R (queue_of ws).
Proof.
  intros ws H. apply Forall_forall. intros row Hin. unfold queue_of in Hin.
  apply in_flat_map in Hin. destruct Hin as (w & Hw & Hin).
  destruct (queued w) as [row'|] eqn:Hq; [|destruct Hin].
  destruct Hin as [<-|[]]. eauto.
Qed.

Lemma as_completed_rows :
  forall zoom futures running n successful_tiles cn done,
    I cn -> Forall P done ->
    (forall w, In w running ->
       Forall P (fetch_log w) /\ forall row, queued w = Some row -> R row) ->
    I (fst (fst (as_completed env zoom futures running n successful_tiles cn done)))
    /\ Forall P
         (snd (fst (as_completed env zoom futures running n successful_tiles cn done))).
Proof.
  induction futures as [|future futures IH];
    intros running n successful_tiles cn done Hcn Hdone Hrun; [cbn; auto|].
  cbn [as_completed].
  set (k := (_ + ahead env zoom (Z.to_nat (n + 1)))%nat).
  assert (Hfirst : forall w, In w (firstn k running) -> In w running).
  { intros w Hw. rewrite <- (firstn_skipn k running). apply in_or_app. auto. }
  assert (Hskip : forall w, In w (skipn k running) -> In w running).
  { intros w Hw. rewrite <- (firstn_skipn k running). apply in_or_app. auto. }
  destruct (drain_queue_rows (queue_of (firstn k running)) cn) as [Hcn1 Hins];
    [apply queue_of_rows; intros w row Hw; apply Hrun, Hfirst, Hw|exact Hcn|].
  destruct (drain_queue (queue_of (firstn k running)) cn) as [cn1 inserted].
  cbn [fst snd] in Hcn1, Hins.
  apply IH.
  - destruct ((n + 1) mod 10 =? 0); auto.
  - apply Forall_app. split; [exact Hdone|].
    apply Forall_app. split.
    { apply Forall_forall. intros e He. apply in_flat_map in He.
      destruct He as (w & Hw & He).
      destruct (Hrun w (Hfirst w Hw)) as [Hlog _].
      apply (proj1 (Forall_forall _ _) Hlog), He. }
    apply Forall_app. split; [exact Hins|].
    destruct ((n + 1) mod 10 =? 0); constructor; [exact P_commit|constructor].
  - intros w Hw. apply Hrun, Hskip, Hw.
Qed.

End LevelInvariants.

(** The same over the zoom levels [zooms], the workers of the tiles in
    bounds keeping [P] and queuing rows of [R]. *)
Section RunInvariants.

Variables tan asinh : float -> float.
Variable env : environment.
Variable I : connection -> Prop.
Variable P : event -> Prop.
Variable R : Z * Z * Z * payload -> Prop.
Variable key : string.
Variable zooms : list Z.

Hypothesis I_insert : forall cn row, R row -> I cn -> I (fst (insert_tile cn row)).
Hypothesis I_commit : forall cn, I cn -> I (commit cn).
Hypothesis P_insert : forall z x r d, R (z, x, r, d) -> P (SqlInsertTile z x r d).
Hypothesis P_duplicate : forall z x r d, R (z, x, r, d) -> P (LogDuplicate z x r).
Hypothesis P_commit : P SqlCommit.
Hypothesis worker_ok : forall zoom rect t,
  In zoom zooms -> tile_rect tan asinh zoom = Some rect ->
  In t (tiles_in_bounds zoom rect key) ->
  Forall P (fetch_log (download_tile_worker env t))
  /\ forall row, queued (download_tile_worker env t) = Some row -> R row.

Lemma zoom_loop_rows : forall zs st,
  incl zs zooms -> I (conn st) -> Forall P (log st) ->
  I (conn (fst (zoom_loop tan asinh env key zs st)))
  /\ Forall P (log (fst (zoom_loop tan asinh env key zs st))).
Proof.
  induction zs as [|zoom zs IH]; intros st Hzs Hcn Hlog; [cbn; auto|].
  assert (Hzoom : In zoom zooms) by (apply Hzs; left; reflexivity).
  assert (Hzs' : incl zs zooms) by (intros z Hz; apply Hzs; right; exact Hz).
  cbn [zoom_loop].
  destruct (tile_rect tan asinh zoom) as [rect|] eqn:Hrect; [|cbn; auto].
  rewrite partition_as_filter.
  set (tile_list := filter _ (tiles_in_bounds zoom rect key)).
  destruct (Z.of_nat (List.length tile_list) =? 0); [auto|].
  set (futures := map _ _).
  assert (H := as_completed_rows env I P R I_insert I_commit P_insert P_duplicate
                 P_commit zoom futures futures 0 0 (conn st) (log st) Hcn Hlog).
  destruct (as_completed env zoom futures futures 0 0 (conn st) (log st))
    as [[cn done] successful_tiles].
  cbn [fst snd] in H. destruct H as [Hcn' Hdone'].
  - intros w Hw. subst futures. apply in_map_iff in Hw.
    destruct Hw as (t & <- & Ht). apply completion_order_In in Ht.
    subst tile_list. apply filter_In in Ht. destruct Ht as [Ht _].
    apply (worker_ok zoom rect t Hzoom Hrect Ht).
  - apply IH; assumption.
Qed.

End RunInvariants.

Lemma tile_rect_grid : forall tan asinh zoom x_min x_max y_min y_max,
  tile_rect tan asinh zoom = Some (x_min, x_max, y_min, y_max) ->
  0 <= zoom /\ 0 <= x_min /\ x_max <= 2 ^ zoom - 1
  /\ 0 <= y_min /\ y_max <= 2 ^ zoom - 1.
Proof.
  intros tan asinh zoom x_min x_max y_min y_max. unfold tile_rect, rect_of_bounds.
  destruct (Coordinate.deg2num _ _ _ _ zoom) as [[a b]|]; [|discriminate].
  destruct (Coordinate.deg2num _ _ _ _ zoom) as [[c d]|]; [|discriminate].
  destruct (Z.ltb_spec zoom 0); [discriminate|].
  intros [= <- <- <- <-]. lia.
Qed.

Lemma tiles_in_bounds_grid : forall tan asinh zoom rect key z x y k,
  tile_rect tan asinh zoom = Some rect ->
  In (z, x, y, k) (tiles_in_bounds zoom rect key) ->
  z = zoom /\ in_grid z x y.
Proof.
  intros tan asinh zoom [[[x_min x_max] y_min] y_max] key z x y k Hrect Hin.
  apply tile_rect_grid in Hrect. apply tiles_in_bounds_In in Hin.
  unfold in_grid. destruct Hin as (-> & _ & Hx & Hy). split; [reflexivity|]. lia.
Qed.

Lemma first_attempt : forall env z x y key data,
  snd (download_wms_tile env z x y key default_max_retries) = Some data ->
  exists k, 0 <= k < default_max_retries
            /\ server env z x y k = Response 200 data /\ data <> [].
Proof.
  intros env z x y key data H. unfold download_wms_tile in H.
  apply attempts_result in H. destruct H as (k & Hk & Hsrv & Hne & _).
  exists k. split; [|auto]. unfold default_max_retries in *. lia.
Qed.

(** What a worker leaves for a tile. *)
Lemma download_tile_worker_queued : forall env z x y key row,
  queued (download_tile_worker env (z, x, y, key)) = Some row ->
  exists data attempt,
    row = (z, x, (2 ^ z - 1) - y, data) /\ data <> []
    /\ 0 <= attempt < default_max_retries
    /\ server env z x y attempt = Response 200 data.
Proof.
  intros env z x y key row. unfold download_tile_worker.
  assert (H := first_attempt env z x y key).
  destruct (download_wms_tile env z x y key default_max_retries) as [fetched [data|]];
    cbn [snd] in H; [|discriminate].
  destruct (0 <? Z.of_nat (List.length data)); [|discriminate].
  cbn [queued]. intros [= <-].
  destruct (H data eq_refl) as (k & Hk & Hsrv & Hne). exists data, k. auto.
Qed.

Lemma download_tile_worker_fetch_log : forall env z x y key,
  fetch_log (download_tile_worker env (z, x, y, key))
  = fst (download_wms_tile env z x y key default_max_retries).
Proof.
  intros. unfold download_tile_worker.
  destruct (download_wms_tile env z x y key default_max_retries) as [fetched [data|]];
    [destruct (0 <? Z.of_nat (List.length data))|]; reflexivity.
Qed.

Lemma open_archive_log : forall file min_zoom max_zoom e,
  In e (log (open_archive file min_zoom max_zoom)) -> sql_setup e = true.
Proof.
  intros [db|] min_zoom max_zoom e; [intros []|]. cbn.
  intros H. repeat (destruct H as [H|H]; [subst e; reflexivity|]). destruct H.
Qed.

Lemma open_archive_tiles : forall file min_zoom max_zoom,
  tiles (work (conn (open_archive file min_zoom max_zoom)))
  = tiles (initial_database file)
  /\ disk (conn (open_archive file min_zoom max_zoom)) = initial_database file.
Proof. intros [db|] min_zoom max_zoom; split; reflexivity. Qed.

(** X5: every request of a run is for a tile of a zoom level of the range,
    inside the clamped rectangle of the bounds chosen for that level (hence
    inside the grid of the level), at an attempt number below the budget. *)
Theorem requests_stay_within_bounds :
  forall tan asinh env file key min_zoom max_zoom,
    Forall (request_in_bounds tan asinh min_zoom max_zoom)
      (events (create_nationalmap_mbtiles tan asinh env file key min_zoom max_zoom)).
Proof.
  intros tan asinh env file key min_zoom max_zoom.
  destruct (run_archive tan asinh env file key min_zoom max_zoom)
    as (_ & closing & -> & Hclosing).
  apply Forall_app. split; [|destruct Hclosing as [->| ->]; repeat constructor].
  apply (zoom_loop_rows tan asinh env (fun _ => True)
           (request_in_bounds tan asinh min_zoom max_zoom) (fun _ => True) key
           (range min_zoom (max_zoom + 1))); auto; try (intros; exact Logic.I).
  - intros zoom rect [[[z x] y] k] Hzoom Hrect Ht. split; [|auto].
    apply range_In in Hzoom.
    destruct (tiles_in_bounds_grid _ _ _ _ _ _ _ _ _ Hrect Ht) as [-> Hgrid].
    destruct rect as [[[x_min x_max] y_min] y_max].
    apply tiles_in_bounds_In in Ht. destruct Ht as (_ & _ & Hx & Hy).
    apply Forall_forall. intros e He.
    assert (Htile := download_tile_worker_log env zoom x y k e He).
    rewrite download_tile_worker_fetch_log in He.
    destruct e; try exact Logic.I. cbn in Htile. injection Htile as -> -> ->.
    apply download_wms_tile_get in He. cbn.
    repeat split; try lia; try apply Hgrid.
    exists x_min, x_max, y_min, y_max. auto.
  - apply incl_refl.
  - apply Forall_forall. intros e He. apply open_archive_log in He.
    destruct e; try discriminate; exact Logic.I.
Qed.

(** X8: a tile row of the archive a run leaves was either in the file
    before the run, or lies inside the grid of a zoom level of the range and
    holds a non-empty payload that the server sent with status 200, within
    the budget, for the tile whose XYZ row is the inversion of the stored
    row. *)
Theorem archived_rows_were_fetched :
  forall tan asinh env file key min_zoom max_zoom,
    Forall (fun t => In t (tiles (initial_database file))
                     \/ fetched_row env min_zoom max_zoom t)
      (tiles (archive (create_nationalmap_mbtiles tan asinh env file key
                         min_zoom max_zoom))).
Proof.
  intros tan asinh env file key min_zoom max_zoom.
  destruct (run_archive tan asinh env file key min_zoom max_zoom) as (-> & _).
  set (Q := fun t => In t (tiles (initial_database file))
                     \/ fetched_row env min_zoom max_zoom t).
  destruct (open_archive_tiles file min_zoom max_zoom) as [Hw0 Hd0].
  apply (zoom_loop_rows tan asinh env
           (fun cn => Forall Q (tiles (work cn)) /\ Forall Q (tiles (disk cn)))
           (fun _ => True)
           (fun row => let '(z, x, r, d) := row in
                       fetched_row env min_zoom max_zoom (mk_tile z x r d))
           key (range min_zoom (max_zoom + 1))); auto; try (intros; exact Logic.I).
  - intros cn [[[z x] r] d] Hrow [Hw Hd].
    destruct (insert_tile_work cn z x r d) as (-> & _ & ->). split; [|exact Hd].
    apply Forall_app. split; [exact Hw|].
    destruct (select_tile (work cn) z x r); constructor; [right; exact Hrow|constructor].
  - intros cn [Hw _]. split; exact Hw.
  - intros zoom rect [[[z x] y] k] Hzoom Hrect Ht.
    split; [apply Forall_forall; intros; exact Logic.I|].
    apply range_In in Hzoom.
    destruct (tiles_in_bounds_grid _ _ _ _ _ _ _ _ _ Hrect Ht) as [-> (Hz & Hx & Hy)].
    intros row Hq. apply download_tile_worker_queued in Hq.
    destruct Hq as (data & attempt & -> & Hne & Ha & Hsrv).
    unfold fetched_row, in_grid. cbn.
    repeat split; try lia; try exact Hne.
    exists attempt. split; [exact Ha|].
    replace (2 ^ zoom - 1 - (2 ^ zoom - 1 - y)) with y by lia. exact Hsrv.
  - apply incl_refl.
  - rewrite Hw0, Hd0. split; apply Forall_forall; intros t Ht; left; exact Ht.
  - apply Forall_forall. intros. exact Logic.I.
Qed.

(** ** The orchestrator: bounds and degenerate zoom ranges *)

Lemma wide_columns : forall z,
  0 <= z <= 1023 -> wide_columns_check z = true.
Proof.
  assert (H : forallb wide_columns_check (range 0 1024) = true)
    by (vm_compute; reflexivity).
  intros z Hz. apply (proj1 (forallb_forall _ _) H). apply range_In. lia.
Qed.

Lemma deg2num_column : forall tan asinh lat lon zoom xtile ytile,
  Coordinate.deg2num tan asinh lat lon zoom = Some (xtile, ytile) ->
  exists n, Coordinate.pow2 zoom = Some n
            /\ Coordinate.int_of_float (Coordinate.xtile_value lon n) = Some xtile.
Proof.
  intros tan asinh lat lon zoom xtile ytile. unfold Coordinate.deg2num.
  destruct (Coordinate.pow2 zoom) as [n|]; [|discriminate].
  destruct (Coordinate.int_of_float (Coordinate.xtile_value lon n)) as [tx|] eqn:Htx;
    [|discriminate].
  destruct (Coordinate.int_of_float (Coordinate.ytile_value tan asinh lat n))
    as [ty|]; [|discriminate].
  intros [= <- <-]. exists n. auto.
Qed.

(** X6: whatever the C library returns for the latitudes, the rectangle of
    the wide bounds spans every column of the grid: x runs from 0 to
    [2 ^ zoom - 1]; so does the rectangle of the zoom levels 1 to 9. *)
Theorem wide_bounds_span_all_columns :
  forall tan asinh zoom x_min x_max y_min y_max,
    rect_of_bounds tan asinh wide_bounds zoom = Some (x_min, x_max, y_min, y_max) ->
    x_min = 0 /\ x_max = 2 ^ zoom - 1
    /\ (1 <= zoom <= 9 ->
        tile_rect tan asinh zoom = Some (0, 2 ^ zoom - 1, y_min, y_max)).
Proof.
  intros tan asinh zoom x_min x_max y_min y_max Hrect.
  assert (Hx : x_min = 0 /\ x_max = 2 ^ zoom - 1).
  { unfold rect_of_bounds in Hrect.
    destruct (Coordinate.deg2num tan asinh (min_lat wide_bounds) (min_lon wide_bounds) zoom)
      as [[a b]|] eqn:H1; [|discriminate].
    destruct (Coordinate.deg2num tan asinh (max_lat wide_bounds) (max_lon wide_bounds) zoom)
      as [[c d]|] eqn:H2; [|discriminate].
    destruct (Z.ltb_spec zoom 0) as [|Hz]; [discriminate|].
    injection Hrect as <- <- <- <-.
    apply deg2num_column in H1, H2.
    destruct H1 as (n & Hn & Ha). destruct H2 as (n' & Hn' & Hc).
    rewrite Hn in Hn'. injection Hn' as <-.
    assert (Hz' : zoom <= 1023).
    { unfold Coordinate.pow2 in Hn. destruct (Z.ltb_spec 1023 zoom); [discriminate|lia]. }
    assert (Hchk := wide_columns zoom (conj Hz Hz')).
    unfold wide_columns_check in Hchk. rewrite Hn, Ha, Hc in Hchk.
    apply andb_prop in Hchk. destruct Hchk as [Hw He].
    apply Z.eqb_eq in Hw, He. subst a c.
    assert (0 < 2 ^ zoom) by (apply Z.pow_pos_nonneg; lia). lia. }
  destruct Hx as [-> ->]. split; [reflexivity|]. split; [reflexivity|].
  intros [H1 H9]. unfold tile_rect, current_bounds.
  destruct (Z.leb_spec 1 zoom); [|lia]. destruct (Z.leb_spec zoom 9); [|lia].
  exact Hrect.
Qed.

Lemma wide_bounds_span_all_columns_witness :
  tile_rect Coordinate.libm_tan Coordinate.libm_asinh 5 = Some (0, 2 ^ 5 - 1, 18, 22).
Proof.
  apply (wide_bounds_span_all_columns Coordinate.libm_tan Coordinate.libm_asinh
           5 0 31 18 22); [vm_compute; reflexivity|lia].
Defined.

Lemma range_empty : forall lo hi, hi <= lo -> range lo hi = [].
Proof. intros lo hi H. unfold range. replace (Z.to_nat (hi - lo)) with 0%nat by lia. reflexivity. Qed.

Lemma range_cons : forall lo hi, lo < hi -> range lo hi = lo :: range (lo + 1) hi.
Proof.
  intros lo hi H. unfold range.
  replace (Z.to_nat (hi - lo)) with (S (Z.to_nat (hi - (lo + 1)))) by lia.
  cbn [seq map]. f_equal; [lia|].
  rewrite <- seq_shift, map_map. apply map_ext. intros i. lia.
Qed.

Lemma tile_rect_negative : forall tan asinh zoom,
  zoom < 0 -> tile_rect tan asinh zoom = None.
Proof.
  intros tan asinh zoom Hz. unfold tile_rect, rect_of_bounds.
  destruct (Coordinate.deg2num _ _ _ _ zoom) as [[a b]|]; [|reflexivity].
  destruct (Coordinate.deg2num _ _ _ _ zoom) as [[c d]|]; [|reflexivity].
  destruct (Z.ltb_spec zoom 0); [reflexivity|lia].
Qed.

Lemma open_archive_gets : forall file min_zoom max_zoom,
  gets (log (open_archive file min_zoom max_zoom)) = 0%nat
  /\ total_tiles_processed (open_archive file min_zoom max_zoom) = 0.
Proof. intros [db|] min_zoom max_zoom; split; reflexivity. Qed.

(** X7: a run over an empty zoom range ([max_zoom < min_zoom]) or one that
    starts at a negative zoom level requests nothing, counts nothing and
    leaves the file as it was opened (a new file holds the empty tables,
    the metadata rows inserted at the start being dropped at the close); it
    returns in the first case and raises in the second. *)
Theorem degenerate_zoom_range :
  forall tan asinh env file key min_zoom max_zoom,
    max_zoom < min_zoom \/ min_zoom < 0 ->
    gets (events (create_nationalmap_mbtiles tan asinh env file key min_zoom max_zoom))
    = 0%nat
    /\ archive (create_nationalmap_mbtiles tan asinh env file key min_zoom max_zoom)
       = initial_database file
    /\ processed (create_nationalmap_mbtiles tan asinh env file key min_zoom max_zoom) = 0
    /\ (returned (create_nationalmap_mbtiles tan asinh env file key min_zoom max_zoom)
        = true <-> max_zoom < min_zoom).
Proof.
  intros tan asinh env file key min_zoom max_zoom Hdeg.
  destruct (open_archive_gets file min_zoom max_zoom) as [Hg Hp].
  destruct (open_archive_tiles file min_zoom max_zoom) as [_ Hd].
  unfold create_nationalmap_mbtiles.
  destruct (Z.lt_ge_cases max_zoom min_zoom) as [Hlt|Hge].
  - rewrite range_empty by lia. cbn [zoom_loop].
    cbn [archive events processed returned]. rewrite gets_app, Hg, Hd, Hp.
    repeat split; auto.
  - assert (Hneg : min_zoom < 0) by (destruct Hdeg; [lia|assumption]).
    rewrite range_cons by lia. cbn [zoom_loop].
    rewrite tile_rect_negative by exact Hneg.
    cbn [archive events processed returned]. rewrite Hg, Hd, Hp.
    repeat split; auto; try discriminate. lia.
Qed.

Lemma degenerate_zoom_range_witness :
  archive (run (always (Response 200 png)) None "key" (-1) 3) = empty_database
  /\ returned (run (always (Response 200 png)) None "key" (-1) 3) = false.
Proof.
  destruct (degenerate_zoom_range Coordinate.libm_tan Coordinate.libm_asinh
              (always (Response 200 png)) None "key" (-1) 3) as (_ & Ha & _ & Hr);
    [right; lia|].
  split; [exact Ha|].
  destruct (returned (run (always (Response 200 png)) None "key" (-1) 3));
    [|reflexivity].
  assert (3 < -1) by (apply Hr; reflexivity). lia.
Defined.


(** ** The orchestrator: every worker is drained once *)

(** An induction principle for the loop over the completed futures: a
    property of (workers not yet drained, connection, log) that survives
    the draining of any batch of workers, followed or not by a commit, holds
    at the end with no worker left. *)
Section LevelInduction.

Variable env : environment.
Variable zoom : Z.
Variable Inv : list worker_result -> connection -> list event -> Prop.

Hypothesis Inv_step : forall batch rest cn done (committed : bool),
  Inv (batch ++ rest) cn done ->
  Inv rest
    (if committed then commit (fst (drain_queue (queue_of batch) cn))
     else fst (drain_queue (queue_of batch) cn))
    (done ++ flat_map fetch_log batch ++ snd (drain_queue (queue_of batch) cn)
          ++ (if committed then [SqlCommit] else [])).

Lemma as_completed_induction :
  forall futures running n successful_tiles cn done,
    (List.length running <= List.length futures)%nat ->
    Inv running cn done ->
    Inv [] (fst (fst (as_completed env zoom futures running n successful_tiles cn done)))
           (snd (fst (as_completed env zoom futures running n successful_tiles cn done))).
Proof.
  induction futures as [|future futures IH];
    intros running n successful_tiles cn done Hlen Hinv.
  - destruct running; [exact Hinv|cbn in Hlen; lia].
  - cbn [as_completed].
    set (k := (_ + ahead env zoom (Z.to_nat (n + 1)))%nat).
    assert (Hk : (List.length (skipn k running) <= List.length futures)%nat).
    { rewrite length_skipn. subst k. cbn [List.length] in *.
      destruct (Nat.leb_spec (S (List.length futures)) (List.length running)); lia. }
    assert (Hstep := Inv_step (firstn k running) (skipn k running) cn done
                       ((n + 1) mod 10 =? 0)).
    rewrite firstn_skipn in Hstep. specialize (Hstep Hinv).
    destruct (drain_queue (queue_of (firstn k running)) cn) as [cn1 inserted].
    cbn [fst snd] in Hstep. apply IH; assumption.
Qed.

End LevelInduction.

Lemma as_completed_count : forall env zoom futures running n successful_tiles cn done,
  snd (as_completed env zoom futures running n successful_tiles cn done)
  = successful_tiles + Z.of_nat (List.length (filter result futures)).
Proof.
  induction futures as [|future futures IH]; intros; [cbn; lia|].
  cbn [as_completed]. destruct (drain_queue _ cn) as [cn1 inserted].
  rewrite IH. cbn [filter]. destruct (result future); cbn [List.length]; lia.
Qed.

Lemma drain_queue_gets : forall q cn, filter is_get (snd (drain_queue q cn)) = [].
Proof.
  intros q cn. destruct (filter is_get (snd (drain_queue q cn))) as [|e l] eqn:Hf;
    [reflexivity|].
  assert (Hin : In e (e :: l)) by (left; reflexivity).
  rewrite <- Hf in Hin. apply filter_In in Hin. destruct Hin as [Hin Hg].
  apply drain_queue_log in Hin. destruct Hin as [Ht _].
  destruct e; discriminate.
Qed.

(** The requests in the log after a zoom level: those before it, then
    those of every worker of the level, each once. *)
Lemma as_completed_gets : forall env zoom futures running n successful_tiles cn done,
  (List.length running <= List.length futures)%nat ->
  filter is_get
    (snd (fst (as_completed env zoom futures running n successful_tiles cn done)))
  = filter is_get done ++ filter is_get (flat_map fetch_log running).
Proof.
  intros env zoom futures running n successful_tiles cn done Hlen.
  assert (H := as_completed_induction env zoom
                 (fun rest _ log' =>
                    filter is_get log' ++ filter is_get (flat_map fetch_log rest)
                    = filter is_get done ++ filter is_get (flat_map fetch_log running))).
  cbn beta in H. rewrite <- H with (futures := futures) (running := running)
                                   (n := n) (successful_tiles := successful_tiles)
                                   (cn := cn) (done := done) at 1.
  - cbn [flat_map filter]. rewrite app_nil_r. reflexivity.
  - intros batch rest cn0 done0 committed Hinv. rewrite <- Hinv.
    rewrite flat_map_app, !filter_app, drain_queue_gets.
    destruct committed; cbn [filter is_get]; rewrite ?app_nil_r, <- ?app_assoc; reflexivity.
  - exact Hlen.
  - reflexivity.
Qed.

Lemma remove_nth_perm : forall (A : Type) (l : list A) i d,
  (i < List.length l)%nat -> Permutation (nth i l d :: remove_nth i l) l.
Proof.
  induction l as [|a l IH]; intros i d Hi; [cbn in Hi; lia|].
  destruct i as [|i]; cbn [nth remove_nth]; [apply Permutation_refl|].
  cbn in Hi. eapply perm_trans; [apply perm_swap|].
  apply perm_skip. apply IH. lia.
Qed.

(** Every submitted future completes, once. *)
Lemma completion_order_perm : forall (A : Type) picks fuel step (l : list A),
  fuel = List.length l -> Permutation (completion_order picks step fuel l) l.
Proof.
  induction fuel as [|fuel IH]; intros step l Hl.
  - destruct l; [apply perm_nil|discriminate].
  - destruct l as [|b l]; [discriminate|]. cbn [completion_order].
    set (i := (picks step mod List.length (b :: l))%nat).
    assert (Hi : (i < List.length (b :: l))%nat)
      by (apply Nat.mod_upper_bound; discriminate).
    assert (Hp := remove_nth_perm A (b :: l) i b Hi).
    eapply perm_trans; [|exact Hp]. apply perm_skip. apply IH.
    apply Permutation_length in Hp. cbn [List.length] in Hp, Hl. lia.
Qed.

Lemma range_NoDup : forall lo hi, NoDup (range lo hi).
Proof.
  intros lo hi. remember (Z.to_nat (hi - lo)) as n eqn:Hn.
  revert lo Hn. induction n as [|n IH]; intros lo Hn.
  - rewrite range_empty by lia. constructor.
  - rewrite range_cons by lia. constructor; [|apply IH; lia].
    rewrite range_In. lia.
Qed.

Lemma NoDup_map_injective : forall (A B : Type) (f : A -> B) l,
  (forall a b, f a = f b -> a = b) -> NoDup l -> NoDup (map f l).
Proof.
  intros A B f l Hf. induction l as [|a l IH]; intros H; [constructor|].
  inversion H as [|? ? Hnotin Hl]; subst. cbn [map]. constructor; [|apply IH, Hl].
  rewrite in_map_iff. intros (b & Heq & Hin). apply Hf in Heq. subst b. contradiction.
Qed.

Lemma coords_tiles_in_bounds : forall zoom rect key,
  NoDup (map coords (tiles_in_bounds zoom rect key)).
Proof.
  intros zoom [[[x_min x_max] y_min] y_max] key. unfold tiles_in_bounds.
  assert (Hx := range_NoDup x_min (x_max + 1)).
  induction (range x_min (x_max + 1)) as [|x xs IH]; [constructor|].
  inversion Hx as [|? ? Hnotin Hxs]; subst. cbn [flat_map]. rewrite map_app.
  apply NoDup_app; [|apply IH, Hxs|].
  - rewrite map_map. cbn [coords]. apply NoDup_map_injective; [|apply range_NoDup].
    intros a b Heq. injection Heq as ->. reflexivity.
  - intros [[z x'] y'] Hin Hin'.
    apply in_map_iff in Hin. destruct Hin as ([[[z1 x1] y1] k1] & Hc & Hin).
    apply in_map_iff in Hin. destruct Hin as (y2 & Heq & _).
    injection Heq as <- <- <- <-. cbn in Hc. injection Hc as <- <- <-.
    apply in_map_iff in Hin'. destruct Hin' as ([[[z3 x3] y3] k3] & Hc & Hin').
    apply in_flat_map in Hin'. destruct Hin' as (x4 & Hx4 & Hin').
    apply in_map_iff in Hin'. destruct Hin' as (y4 & Heq & _).
    injection Heq as <- <- <- <-. cbn in Hc. injection Hc as ->. contradiction.
Qed.

Lemma NoDup_map_filter : forall (A B : Type) (f : A -> B) (p : A -> bool) l,
  NoDup (map f l) -> NoDup (map f (filter p l)).
Proof.
  induction l as [|a l IH]; intros H; [constructor|].
  cbn [map] in H. inversion H as [|? ? Hnotin Hl]; subst. cbn [filter].
  destruct (p a); [|apply IH, Hl]. cbn [map]. constructor; [|apply IH, Hl].
  intros Hin. apply Hnotin. apply in_map_iff in Hin. destruct Hin as (a' & Heq & Hin).
  apply in_map_iff. exists a'. split; [exact Heq|]. apply filter_In in Hin. tauto.
Qed.

(** The pending tiles of a level, in completion order: no tile twice. *)
Lemma pending_NoDup : forall picks zoom rect key (p : tile_args -> bool),
  NoDup (map coords
           (completion_order picks 0
              (List.length (filter p (tiles_in_bounds zoom rect key)))
              (filter p (tiles_in_bounds zoom rect key)))).
Proof.
  intros. eapply Permutation_NoDup.
  - apply Permutation_sym, Permutation_map, completion_order_perm. reflexivity.
  - apply NoDup_map_filter, coords_tiles_in_bounds.
Qed.

Lemma attempts_gets_NoDup : forall env zoom x y max_retries todo a,
  NoDup (filter is_get (fst (attempts env zoom x y max_retries todo a))).
Proof.
  intros env zoom x y max_retries. induction todo as [|todo IH]; intros a; [constructor|].
  assert (Hreach := get_reached env zoom x y max_retries todo (a + 1) zoom x y a).
  rewrite attempts_S.
  destruct (success (server env zoom x y a));
    [|destruct (goes_on (server env zoom x y a))]; cbn [fst].
  - cbn. constructor; [intros []|constructor].
  - change (HttpGet zoom x y a :: ?l) with ([HttpGet zoom x y a] ++ l).
    rewrite !filter_app.
    replace (filter is_get (after_failure env zoom x y max_retries a)) with (@nil event).
    + cbn. constructor; [|apply IH]. intros Hin. apply filter_In in Hin.
      destruct Hin as [Hin _]. apply Hreach in Hin. lia.
    + symmetry. assert (Hg := gets_after_failure env zoom x y max_retries a).
      unfold gets in Hg. destruct (filter is_get _); [reflexivity|discriminate].
  - cbn. constructor; [intros []|constructor].
Qed.

(** Workers of distinct tiles send distinct requests. *)
Lemma workers_gets_NoDup : forall env ts,
  NoDup (map coords ts) ->
  NoDup (filter is_get (flat_map fetch_log (map (download_tile_worker env) ts))).
Proof.
  intros env. induction ts as [|[[[z x] y] k] ts IH]; intros Hts; [constructor|].
  cbn [map] in Hts. inversion Hts as [|? ? Hnotin Hts']; subst.
  cbn [map flat_map]. rewrite filter_app. apply NoDup_app; [|apply IH, Hts'|].
  - rewrite download_tile_worker_fetch_log. apply attempts_gets_NoDup.
  - intros e Hin Hin'. apply filter_In in Hin, Hin'.
    destruct Hin as [Hin _]. destruct Hin' as [Hin' _].
    apply download_tile_worker_log in Hin.
    apply in_flat_map in Hin'. destruct Hin' as (w & Hw & Hin').
    apply in_map_iff in Hw. destruct Hw as ([[[z' x'] y'] k'] & <- & Ht).
    apply download_tile_worker_log in Hin'. rewrite Hin in Hin'.
    injection Hin' as <- <- <-. apply Hnotin.
    apply in_map_iff. exists (z, x, y, k'). split; [reflexivity|exact Ht].
Qed.

Lemma workers_gets_zoom : forall env ts z x y a,
  In (HttpGet z x y a) (flat_map fetch_log (map (download_tile_worker env) ts)) ->
  exists k, In (z, x, y, k) ts.
Proof.
  intros env ts z x y a Hin. apply in_flat_map in Hin. destruct Hin as (w & Hw & Hin).
  apply in_map_iff in Hw. destruct Hw as ([[[z' x'] y'] k'] & <- & Ht).
  apply download_tile_worker_log in Hin. cbn in Hin. injection Hin as <- <- <-.
  exists k'. exact Ht.
Qed.

(** The requests in the log after the levels [zs]. *)
Lemma zoom_loop_gets_NoDup : forall tan asinh env key zs st,
  NoDup zs ->
  NoDup (filter is_get (log st)) ->
  (forall z x y a, In (HttpGet z x y a) (log st) -> ~ In z zs) ->
  NoDup (filter is_get (log (fst (zoom_loop tan asinh env key zs st)))).
Proof.
  intros tan asinh env key. induction zs as [|zoom zs IH]; intros st Hzs Hnd Hold;
    [exact Hnd|].
  inversion Hzs as [|? ? Hnotin Hzs']; subst.
  cbn [zoom_loop].
  destruct (tile_rect tan asinh zoom) as [rect|] eqn:Hrect; [|exact Hnd].
  rewrite partition_as_filter.
  set (p := fun t => negb (args_exist (conn st) t)).
  set (tile_list := filter p (tiles_in_bounds zoom rect key)).
  destruct (Z.of_nat (List.length tile_list) =? 0).
  { apply IH; auto. intros z x y a Hin Hz. apply (Hold z x y a Hin). right. exact Hz. }
  set (pending := completion_order (pick env zoom) 0 (List.length tile_list) tile_list).
  set (futures := map (download_tile_worker env) pending).
  assert (Hgets := as_completed_gets env zoom futures futures 0 0 (conn st) (log st)
                     (Nat.le_refl _)).
  destruct (as_completed env zoom futures futures 0 0 (conn st) (log st))
    as [[cn done] successful_tiles].
  cbn [fst snd] in Hgets.
  assert (Hlevel : forall z x y a, In (HttpGet z x y a) (flat_map fetch_log futures) ->
                                   z = zoom).
  { intros z x y a Hin. apply workers_gets_zoom in Hin. destruct Hin as [k Hin].
    subst pending. apply completion_order_In in Hin. subst tile_list.
    apply filter_In in Hin. destruct Hin as [Hin _].
    destruct rect as [[[x_min x_max] y_min] y_max].
    apply tiles_in_bounds_In in Hin. tauto. }
  apply IH; [exact Hzs'| |]; cbn [log].
  - rewrite Hgets. apply NoDup_app; [exact Hnd|apply workers_gets_NoDup, pending_NoDup|].
    intros e Hin Hin'. apply filter_In in Hin, Hin'.
    destruct Hin as [Hin Hg]. destruct Hin' as [Hin' _].
    destruct e; try discriminate.
    apply Hlevel in Hin'. subst. apply (Hold _ _ _ _ Hin). left. reflexivity.
  - intros z x y a Hin Hz.
    assert (Hf : In (HttpGet z x y a) (filter is_get done))
      by (apply filter_In; split; [exact Hin|reflexivity]).
    rewrite Hgets in Hf. apply in_app_or in Hf. destruct Hf as [Hf|Hf];
      apply filter_In in Hf; destruct Hf as [Hf _].
    + apply (Hold _ _ _ _ Hf). right. exact Hz.
    + apply Hlevel in Hf. subst. contradiction.
Qed.

(** X10: within a run no request is sent twice: for every tile and attempt
    number at most one request; in particular no tile is fetched by two
    workers. *)
Theorem no_request_is_sent_twice :
  forall tan asinh env file key min_zoom max_zoom,
    NoDup (filter is_get
             (events (create_nationalmap_mbtiles tan asinh env file key
                        min_zoom max_zoom))).
Proof.
  intros tan asinh env file key min_zoom max_zoom.
  destruct (run_archive tan asinh env file key min_zoom max_zoom)
    as (_ & closing & -> & Hclosing).
  rewrite filter_app.
  replace (filter is_get closing) with (@nil event)
    by (destruct Hclosing as [->| ->]; reflexivity).
  rewrite app_nil_r.
  assert (Hopen : forall e, In e (log (open_archive file min_zoom max_zoom)) ->
                            is_get e = false).
  { intros e He. apply open_archive_log in He. destruct e; try discriminate; reflexivity. }
  apply zoom_loop_gets_NoDup.
  - apply range_NoDup.
  - destruct (filter is_get (log (open_archive file min_zoom max_zoom))) as [|e l] eqn:Hf;
      [constructor|].
    assert (Hin : In e (e :: l)) by (left; reflexivity).
    rewrite <- Hf in Hin. apply filter_In in Hin. destruct Hin as [Hin Hg].
    rewrite (Hopen e Hin) in Hg. discriminate.
  - intros z x y a Hin. apply Hopen in Hin. discriminate.
Qed.

Lemma args_exist_archived : forall db0 zs cn z x y k,
  (forall t, In t (tiles (work cn)) -> In t (tiles db0) \/ ~ In (zoom_level t) zs) ->
  In z zs -> args_exist cn (z, x, y, k) = true -> archived db0 z x y = true.
Proof.
  intros db0 zs cn z x y k Hrows Hz Hex. unfold args_exist, tile_exists, select_tile in Hex.
  apply existsb_exists in Hex. destruct Hex as (t & Ht & Hk).
  destruct (Hrows t Ht) as [Hdb|Hzoom].
  - unfold archived, tile_exists, select_tile. cbn [work].
    apply existsb_exists. exists t. auto.
  - apply same_key_spec in Hk. destruct Hk as (Hk & _). rewrite Hk in Hzoom. contradiction.
Qed.

Lemma first_request : forall env z x y k,
  In (HttpGet z x y 0) (fetch_log (download_tile_worker env (z, x, y, k))).
Proof.
  intros. rewrite download_tile_worker_fetch_log. apply download_wms_tile_get.
  unfold default_max_retries. split; [lia|]. intros j Hj. lia.
Qed.

(** Every tile in the bounds of the levels [zs] is in the archive the run
    started from or is requested, when no level raises. *)
Lemma zoom_loop_requests : forall tan asinh env key db0 zs st,
  NoDup zs ->
  (forall t, In t (tiles (work (conn st))) ->
             In t (tiles db0) \/ ~ In (zoom_level t) zs) ->
  snd (zoom_loop tan asinh env key zs st) = false ->
  forall zoom rect z x y k,
    In zoom zs -> tile_rect tan asinh zoom = Some rect ->
    In (z, x, y, k) (tiles_in_bounds zoom rect key) ->
    archived db0 z x y = true
    \/ In (HttpGet z x y 0) (log (fst (zoom_loop tan asinh env key zs st))).
Proof.
  intros tan asinh env key db0. induction zs as [|zoom0 zs IH];
    intros st Hzs Hrows Hret zoom rect z x y k Hzoom Hrect Ht; [destruct Hzoom|].
  inversion Hzs as [|? ? Hnotin Hzs']; subst.
  assert (Hz : z = zoom).
  { destruct rect as [[[x_min x_max] y_min] y_max].
    apply tiles_in_bounds_In in Ht. tauto. }
  subst z.
  assert (Hweak : forall t, In t (tiles (work (conn st))) ->
                            In t (tiles db0) \/ ~ In (zoom_level t) zs).
  { intros t Hin. destruct (Hrows t Hin) as [H|H]; [left; exact H|].
    right. intros Hz. apply H. right. exact Hz. }
  cbn [zoom_loop] in *.
  destruct (tile_rect tan asinh zoom0) as [rect0|] eqn:Hrect0; [|discriminate Hret].
  rewrite partition_as_filter in *.
  set (p := fun t => negb (args_exist (conn st) t)) in *.
  set (tile_list := filter p (tiles_in_bounds zoom0 rect0 key)) in *.
  assert (Hhere : zoom = zoom0 ->
                  archived db0 zoom x y = true \/ In (zoom, x, y, k) tile_list).
  { intros ->. rewrite Hrect in Hrect0. injection Hrect0 as <-.
    destruct (args_exist (conn st) (zoom0, x, y, k)) eqn:Hex.
    - left. exact (args_exist_archived db0 (zoom0 :: zs) (conn st) zoom0 x y k Hrows
                     (or_introl eq_refl) Hex).
    - right. subst tile_list. apply filter_In. split; [exact Ht|].
      unfold p. rewrite Hex. reflexivity. }
  destruct (Z.of_nat (List.length tile_list) =? 0) eqn:Hempty.
  { destruct Hzoom as [<-|Hzoom]; [|eapply IH; eauto].
    destruct (Hhere eq_refl) as [H|H]; [left; exact H|].
    apply Z.eqb_eq in Hempty. destruct tile_list; [destruct H|discriminate]. }
  set (pending := completion_order (pick env zoom0) 0 (List.length tile_list) tile_list) in *.
  set (futures := map (download_tile_worker env) pending) in *.
  assert (Hgets := as_completed_gets env zoom0 futures futures 0 0 (conn st) (log st)
                     (Nat.le_refl _)).
  assert (Hinv := as_completed_rows env
                    (fun cn => forall t, In t (tiles (work cn)) ->
                                         In t (tiles db0) \/ ~ In (zoom_level t) zs)
                    (fun _ => True)
                    (fun row => fst (fst (fst row)) = zoom0)).
  specialize (Hinv) with (zoom := zoom0) (futures := futures) (running := futures)
                         (n := 0) (successful_tiles := 0) (cn := conn st) (done := log st).
  destruct (as_completed env zoom0 futures futures 0 0 (conn st) (log st))
    as [[cn done] successful_tiles].
  cbn [fst snd] in Hgets, Hinv.
  destruct Hinv as [Hrows1 _].
  - intros cn0 [[[z1 x1] r1] d1] Hrow Hcn0 t Hin. cbn in Hrow. subst z1.
    destruct (insert_tile_work cn0 zoom0 x1 r1 d1) as (_ & _ & Hw). rewrite Hw in Hin.
    apply in_app_or in Hin. destruct Hin as [Hin|Hin]; [apply Hcn0, Hin|].
    destruct (select_tile (work cn0) zoom0 x1 r1); [destruct Hin|].
    destruct Hin as [<-|[]]. right. exact Hnotin.
  - intros cn0 Hcn0. exact Hcn0.
  - intros. exact Logic.I.
  - intros. exact Logic.I.
  - exact Logic.I.
  - exact Hweak.
  - apply Forall_forall. intros. exact Logic.I.
  - intros w Hw. split; [apply Forall_forall; intros; exact Logic.I|].
    subst futures. apply in_map_iff in Hw. destruct Hw as ([[[z1 x1] y1] k1] & <- & Hin).
    intros row Hq. apply download_tile_worker_queued in Hq.
    destruct Hq as (data & attempt & -> & _). cbn.
    subst pending. apply completion_order_In in Hin. subst tile_list.
    apply filter_In in Hin. destruct Hin as [Hin _].
    destruct rect0 as [[[x_min x_max] y_min] y_max].
    apply tiles_in_bounds_In in Hin. tauto.
  - destruct Hzoom as [<-|Hzoom].
    + destruct (Hhere eq_refl) as [H|H]; [left; exact H|]. right.
      destruct (zoom_loop_log tan asinh env key zs
                  (mk_run_state cn done (total_tiles_processed st + successful_tiles)))
        as [more ->].
      cbn [log]. apply in_or_app. left.
      assert (Hf : In (HttpGet zoom0 x y 0) (filter is_get done)).
      { rewrite Hgets. apply in_or_app. right. apply filter_In. split; [|reflexivity].
        apply in_flat_map. exists (download_tile_worker env (zoom0, x, y, k)).
        split; [|apply first_request].
        subst futures. apply in_map. subst pending.
        eapply Permutation_in; [apply Permutation_sym, completion_order_perm; reflexivity|].
        exact H. }
      apply filter_In in Hf. tauto.
    + eapply IH; eauto.
Qed.

(** X9: when a run returns, every tile of a zoom level of the range that
    lies in the rectangle of the bounds of that level was either in the
    archive when the run started or has been requested in this run. *)
Theorem every_missing_tile_is_requested :
  forall tan asinh env file key min_zoom max_zoom zoom x_min x_max y_min y_max x y,
    returned (create_nationalmap_mbtiles tan asinh env file key min_zoom max_zoom) = true ->
    min_zoom <= zoom <= max_zoom ->
    tile_rect tan asinh zoom = Some (x_min, x_max, y_min, y_max) ->
    x_min <= x <= x_max -> y_min <= y <= y_max ->
    archived (initial_database file) zoom x y = true
    \/ In (HttpGet zoom x y 0)
          (events (create_nationalmap_mbtiles tan asinh env file key min_zoom max_zoom)).
Proof.
  intros tan asinh env file key min_zoom max_zoom zoom x_min x_max y_min y_max x y
    Hret Hzoom Hrect Hx Hy.
  destruct (run_archive tan asinh env file key min_zoom max_zoom)
    as (_ & closing & -> & _).
  assert (Hraised : snd (zoom_loop tan asinh env key (range min_zoom (max_zoom + 1))
                           (open_archive file min_zoom max_zoom)) = false).
  { unfold create_nationalmap_mbtiles in Hret.
    destruct (zoom_loop _ _ _ _ _ _) as [st [|]]; [discriminate Hret|reflexivity]. }
  destruct (zoom_loop_requests tan asinh env key (initial_database file)
              (range min_zoom (max_zoom + 1)) (open_archive file min_zoom max_zoom)
              (range_NoDup _ _)) with (zoom := zoom) (rect := (x_min, x_max, y_min, y_max))
              (z := zoom) (x := x) (y := y) (k := key) as [H|H]; auto.
  - intros t Ht. left.
    destruct (open_archive_tiles file min_zoom max_zoom) as [Hw _].
    rewrite Hw in Ht. exact Ht.
  - apply range_In. lia.
  - apply tiles_in_bounds_In. auto.
  - right. apply in_or_app. left. exact H.
Qed.

Lemma every_missing_tile_is_requested_witness :
  archived (initial_database None) 3 7 5 = true
  \/ In (HttpGet 3 7 5 0) (events (run (always (Response 404 [])) None "key" 3 3)).
Proof.
  apply (every_missing_tile_is_requested Coordinate.libm_tan Coordinate.libm_asinh
           (always (Response 404 [])) None "key" 3 3 3 0 7 4 5 7 5);
    try lia; vm_compute; reflexivity.
Defined.

(** ** The orchestrator: inserts, duplicates and the printed total *)

(** Draining tuples with distinct keys that the connection does not see:
    each one is inserted, none is a duplicate. *)
Lemma drain_queue_fresh : forall q cn,
  NoDup (map row_key q) ->
  (forall z x r d, In (z, x, r, d) q -> select_tile (work cn) z x r = false) ->
  inserted_rows (snd (drain_queue q cn)) = q
  /\ filter is_duplicate (snd (drain_queue q cn)) = []
  /\ tiles (work (fst (drain_queue q cn))) = tiles (work cn) ++ map row_tile q.
Proof.
  induction q as [|[[[z x] r] d] q IH]; intros cn Hnd Habs.
  - cbn. rewrite app_nil_r. auto.
  - cbn [map row_key] in Hnd. inversion Hnd as [|? ? Hnotin Hnd']; subst.
    rewrite drain_queue_cons. cbn [fst snd]. rewrite insert_tile_log.
    destruct (insert_tile_work cn z x r d) as (_ & _ & Hw).
    rewrite (Habs z x r d (or_introl eq_refl)) in *.
    destruct (IH (fst (insert_tile cn (z, x, r, d))) Hnd') as (Hins & Hdup & Htiles).
    + intros z' x' r' d' Hin.
      assert (Hne : (z', x', r') <> (z, x, r)).
      { intros Heq. apply Hnotin. rewrite <- Heq.
        change (z', x', r') with (row_key (z', x', r', d')). apply in_map. exact Hin. }
      unfold select_tile. rewrite Hw, existsb_app.
      fold (select_tile (work cn) z' x' r').
      rewrite (Habs z' x' r' d' (or_intror Hin)). cbn.
      destruct (same_key z' x' r' (mk_tile z x r d)) eqn:Hk; [|reflexivity].
      apply same_key_spec in Hk. cbn in Hk. destruct Hk as (-> & -> & ->).
      contradiction Hne. reflexivity.
    + cbn [app inserted_rows flat_map filter is_duplicate]. fold (inserted_rows (snd (drain_queue q (fst (insert_tile cn (z, x, r, d)))))).
      rewrite Hins, Hdup, Htiles, Hw. cbn [map row_tile app].
      rewrite <- app_assoc. auto.
Qed.

Lemma inserted_rows_app : forall l1 l2,
  inserted_rows (l1 ++ l2) = inserted_rows l1 ++ inserted_rows l2.
Proof. intros. unfold inserted_rows. apply flat_map_app. Qed.

Lemma fetch_events_store_nothing : forall l,
  (forall e, In e l -> event_tile e <> None) ->
  inserted_rows l = [] /\ filter is_duplicate l = [].
Proof.
  induction l as [|e l IH]; intros H; [auto|].
  destruct IH as [IH1 IH2]; [intros e' He'; apply H; right; exact He'|].
  assert (He := H e (or_introl eq_refl)).
  cbn [inserted_rows flat_map filter]. fold (inserted_rows l). rewrite IH1, IH2.
  destruct e; cbn in *; auto; contradiction He; reflexivity.
Qed.

(** The inserts of a zoom level: one for every worker that queued a tuple,
    when the queued keys are distinct and new to the connection. *)
Lemma as_completed_inserts :
  forall env zoom futures running n successful_tiles cn done,
    (List.length running <= List.length futures)%nat ->
    (forall w e, In w running -> In e (fetch_log w) -> event_tile e <> None) ->
    NoDup (map row_key (queue_of running)) ->
    (forall z x r d, In (z, x, r, d) (queue_of running) ->
                     select_tile (work cn) z x r = false) ->
    inserted_rows
      (snd (fst (as_completed env zoom futures running n successful_tiles cn done)))
    = inserted_rows done ++ queue_of running
    /\ filter is_duplicate
         (snd (fst (as_completed env zoom futures running n successful_tiles cn done)))
       = filter is_duplicate done
    /\ tiles (work (fst (fst (as_completed env zoom futures running n
                                successful_tiles cn done))))
       = tiles (work cn) ++ map row_tile (queue_of running).
Proof.
  intros env zoom futures running n successful_tiles cn done Hlen Hfetch Hnd Habs.
  assert (H := as_completed_induction env zoom
     (fun rest cn' log' =>
        (forall w e, In w rest -> In e (fetch_log w) -> event_tile e <> None)
        /\ NoDup (map row_key (queue_of rest))
        /\ (forall z x r d, In (z, x, r, d) (queue_of rest) ->
                            select_tile (work cn') z x r = false)
        /\ inserted_rows log' ++ queue_of rest = inserted_rows done ++ queue_of running
        /\ filter is_duplicate log' = filter is_duplicate done
        /\ tiles (work cn') ++ map row_tile (queue_of rest)
           = tiles (work cn) ++ map row_tile (queue_of running))).
  cbn beta in H.
  destruct H with (futures := futures) (running := running) (n := n)
                  (successful_tiles := successful_tiles) (cn := cn) (done := done)
    as (_ & _ & _ & Hins & Hdup & Htiles); auto.
  - intros batch rest cn0 done0 committed (Hfetch' & Hnd' & Habs' & Hins & Hdup & Htiles).
    unfold queue_of in Hnd', Habs', Hins, Htiles. rewrite flat_map_app in Hnd', Habs', Hins, Htiles.
    fold (queue_of batch) in *. fold (queue_of rest) in *.
    rewrite map_app in Hnd', Htiles.
    destruct (drain_queue_fresh (queue_of batch) cn0) as (Hq & Hd & Hw).
    { exact (NoDup_app_remove_r _ _ Hnd'). }
    { intros z x r d Hin. apply (Habs' z x r d). apply in_or_app. left. exact Hin. }
    destruct (fetch_events_store_nothing (flat_map fetch_log batch)) as [Hf1 Hf2].
    { intros e He. apply in_flat_map in He. destruct He as (w & Hw' & He).
      apply (Hfetch' w e); [apply in_or_app; left; exact Hw'|exact He]. }
    assert (Hwork : work (if committed
                          then commit (fst (drain_queue (queue_of batch) cn0))
                          else fst (drain_queue (queue_of batch) cn0))
                    = work (fst (drain_queue (queue_of batch) cn0)))
      by (destruct committed; reflexivity).
    rewrite Hwork. split; [|split; [|split; [|split; [|split]]]].
    + intros w e Hw'. apply Hfetch'. apply in_or_app. right. exact Hw'.
    + exact (NoDup_app_remove_l _ _ Hnd').
    + intros z x r d Hin. apply drain_queue_absent.
      * apply (Habs' z x r d). apply in_or_app. right. exact Hin.
      * intros d' Hin'.
        assert (Hk : In (z, x, r) (map row_key (queue_of batch)))
          by (change (z, x, r) with (row_key (z, x, r, d')); apply in_map; exact Hin').
        assert (Hk' : In (z, x, r) (map row_key (queue_of rest)))
          by (change (z, x, r) with (row_key (z, x, r, d)); apply in_map; exact Hin).
        clear - Hnd' Hk Hk'. induction (map row_key (queue_of batch)) as [|a l IH];
          [destruct Hk|].
        cbn [app] in Hnd'. inversion Hnd' as [|? ? Hnotin Hnd2]; subst.
        destruct Hk as [->|Hk]; [|auto].
        apply Hnotin. apply in_or_app. right. exact Hk'.
    + rewrite !inserted_rows_app, Hf1, Hq. cbn [app].
      replace (inserted_rows (if committed then [SqlCommit] else [])) with
        (@nil (Z * Z * Z * payload)) by (destruct committed; reflexivity).
      rewrite app_nil_r, <- app_assoc. exact Hins.
    + rewrite !filter_app, Hf2, Hd.
      replace (filter is_duplicate (if committed then [SqlCommit] else [])) with
        (@nil event) by (destruct committed; reflexivity).
      rewrite !app_nil_r. exact Hdup.
    + rewrite Hw, <- app_assoc. exact Htiles.
  - split; [exact Hfetch|]. split; [exact Hnd|]. split; [exact Habs|]. auto.
  - cbn [queue_of flat_map map] in Hins, Htiles. rewrite !app_nil_r in *. auto.
Qed.

Lemma worker_result_queued : forall env t,
  result (download_tile_worker env t) = true
  <-> queued (download_tile_worker env t) <> None.
Proof.
  intros env [[[z x] y] k]. unfold download_tile_worker.
  destruct (download_wms_tile env z x y k default_max_retries) as [fetched [data|]];
    [destruct (0 <? Z.of_nat (List.length data))|]; cbn; split;
    try discriminate; try reflexivity; intros H; contradiction H; reflexivity.
Qed.

Lemma workers_queue_length : forall env ts,
  List.length (queue_of (map (download_tile_worker env) ts))
  = List.length (filter result (map (download_tile_worker env) ts)).
Proof.
  intros env. induction ts as [|t ts IH]; [reflexivity|].
  cbn [map queue_of flat_map filter]. fold (queue_of (map (download_tile_worker env) ts)).
  rewrite length_app, IH.
  assert (H := worker_result_queued env t).
  destruct (result (download_tile_worker env t));
    destruct (queued (download_tile_worker env t)) as [row|]; cbn [List.length]; try lia.
  - assert (Hn : @None (Z * Z * Z * payload) <> None) by (apply H; reflexivity).
    contradiction Hn. reflexivity.
  - assert (false = true) by (apply H; discriminate). discriminate.
Qed.

Lemma workers_queue_In : forall env ts z x r d,
  In (z, x, r, d) (queue_of (map (download_tile_worker env) ts)) ->
  exists y k, In (z, x, y, k) ts /\ r = (2 ^ z - 1) - y.
Proof.
  intros env ts z x r d Hin. unfold queue_of in Hin. apply in_flat_map in Hin.
  destruct Hin as (w & Hw & Hin). apply in_map_iff in Hw.
  destruct Hw as ([[[z' x'] y'] k'] & <- & Ht).
  destruct (queued (download_tile_worker env (z', x', y', k'))) as [row|] eqn:Hq;
    [|destruct Hin].
  destruct Hin as [->|[]]. apply download_tile_worker_queued in Hq.
  destruct Hq as (data & attempt & Heq & _). injection Heq as -> -> -> ->.
  exists y', k'. auto.
Qed.

Lemma workers_queue_NoDup : forall env ts,
  NoDup (map coords ts) ->
  NoDup (map row_key (queue_of (map (download_tile_worker env) ts))).
Proof.
  intros env. induction ts as [|[[[z x] y] k] ts IH]; intros Hts; [constructor|].
  cbn [map] in Hts. inversion Hts as [|? ? Hnotin Hts']; subst.
  cbn [map queue_of flat_map]. fold (queue_of (map (download_tile_worker env) ts)).
  destruct (queued (download_tile_worker env (z, x, y, k))) as [row|] eqn:Hq;
    [|apply IH, Hts'].
  apply download_tile_worker_queued in Hq. destruct Hq as (data & attempt & -> & _).
  cbn [app map row_key]. constructor; [|apply IH, Hts'].
  intros Hin. apply in_map_iff in Hin. destruct Hin as ([[[z' x'] r'] d'] & Hk & Hin).
  cbn in Hk. injection Hk as -> -> ->.
  apply workers_queue_In in Hin. destruct Hin as (y' & k' & Ht & Hr).
  assert (y' = y) by lia. subst y'. apply Hnotin.
  apply in_map_iff. exists (z, x, y, k'). auto.
Qed.

(** After the levels [zs]: no duplicate was met, the total counts the
    inserts, and the connection sees its rows followed by the inserted
    ones. *)
Lemma zoom_loop_inserts : forall tan asinh env key rows0 zs st,
  filter is_duplicate (log st) = [] ->
  Z.of_nat (List.length (inserted_rows (log st))) = total_tiles_processed st ->
  tiles (work (conn st)) = rows0 ++ map row_tile (inserted_rows (log st)) ->
  filter is_duplicate (log (fst (zoom_loop tan asinh env key zs st))) = []
  /\ Z.of_nat (List.length (inserted_rows (log (fst (zoom_loop tan asinh env key zs st)))))
     = total_tiles_processed (fst (zoom_loop tan asinh env key zs st))
  /\ tiles (work (conn (fst (zoom_loop tan asinh env key zs st))))
     = rows0 ++ map row_tile (inserted_rows (log (fst (zoom_loop tan asinh env key zs st)))).
Proof.
  intros tan asinh env key rows0. induction zs as [|zoom zs IH]; intros st Hdup Hcount Hwork;
    [cbn; auto|].
  cbn [zoom_loop].
  destruct (tile_rect tan asinh zoom) as [rect|] eqn:Hrect; [|cbn; auto].
  rewrite partition_as_filter.
  set (p := fun t => negb (args_exist (conn st) t)).
  set (tile_list := filter p (tiles_in_bounds zoom rect key)).
  destruct (Z.of_nat (List.length tile_list) =? 0); [auto|].
  set (pending := completion_order (pick env zoom) 0 (List.length tile_list) tile_list).
  set (futures := map (download_tile_worker env) pending).
  assert (Hcnt := as_completed_count env zoom futures futures 0 0 (conn st) (log st)).
  destruct (as_completed_inserts env zoom futures futures 0 0 (conn st) (log st)
              (Nat.le_refl _)) as (Hins & Hd & Hw).
  - intros w e Hw He. subst futures. apply in_map_iff in Hw.
    destruct Hw as ([[[z x] y] k] & <- & _).
    apply download_tile_worker_log in He. rewrite He. discriminate.
  - apply workers_queue_NoDup, pending_NoDup.
  - intros z x r d Hin. apply workers_queue_In in Hin.
    destruct Hin as (y & k & Ht & ->).
    subst pending. apply completion_order_In in Ht. subst tile_list.
    apply filter_In in Ht. destruct Ht as [_ Hp]. unfold p in Hp.
    apply negb_true_iff in Hp. exact Hp.
  - destruct (as_completed env zoom futures futures 0 0 (conn st) (log st))
      as [[cn done] successful_tiles].
    cbn [fst snd] in *. apply IH; cbn [log conn total_tiles_processed].
    + rewrite Hd. exact Hdup.
    + rewrite Hins, length_app, Hcnt. unfold futures at 1.
      rewrite workers_queue_length. fold futures. lia.
    + rewrite Hw, Hins, Hwork, map_app, app_assoc. reflexivity.
Qed.

Lemma open_archive_inserts : forall file min_zoom max_zoom,
  filter is_duplicate (log (open_archive file min_zoom max_zoom)) = []
  /\ inserted_rows (log (open_archive file min_zoom max_zoom)) = [].
Proof. intros [db|] min_zoom max_zoom; split; reflexivity. Qed.

Lemma run_inserts : forall tan asinh env file key min_zoom max_zoom,
  filter is_duplicate
    (events (create_nationalmap_mbtiles tan asinh env file key min_zoom max_zoom)) = []
  /\ processed (create_nationalmap_mbtiles tan asinh env file key min_zoom max_zoom)
     = Z.of_nat (List.length
         (inserted_rows
            (events (create_nationalmap_mbtiles tan asinh env file key min_zoom max_zoom))))
  /\ exists lost,
       tiles (initial_database file)
         ++ map row_tile
              (inserted_rows
                 (events (create_nationalmap_mbtiles tan asinh env file key
                            min_zoom max_zoom)))
       = tiles (archive (create_nationalmap_mbtiles tan asinh env file key
                           min_zoom max_zoom)) ++ lost.
Proof.
  intros tan asinh env file key min_zoom max_zoom.
  destruct (open_archive_inserts file min_zoom max_zoom) as [Hd0 Hi0].
  destruct (open_archive_tiles file min_zoom max_zoom) as [Hw0 Hdisk0].
  destruct (open_archive_gets file min_zoom max_zoom) as [_ Hp0].
  destruct (zoom_loop_inserts tan asinh env key (tiles (initial_database file))
              (range min_zoom (max_zoom + 1)) (open_archive file min_zoom max_zoom))
    as (Hdup & Hcount & Hwork).
  { exact Hd0. }
  { rewrite Hi0, Hp0. reflexivity. }
  { rewrite Hi0, Hw0. cbn. rewrite app_nil_r. reflexivity. }
  destruct (zoom_loop_invariant tan asinh env (extends (initial_database file))
              (fun _ => True) (insert_tile_extends _) (commit_extends _)
              (fun _ _ _ => Logic.I) (fun _ _ _ _ _ _ _ _ => Logic.I)
              key (range min_zoom (max_zoom + 1)) (open_archive file min_zoom max_zoom))
    as [(c & q & Hc & Hq) _].
  { exists [], []. rewrite Hw0, Hdisk0, !app_nil_r. auto. }
  { apply Forall_forall. intros. exact Logic.I. }
  assert (Hev : forall closing, closing = [] \/ closing = [SqlClose] ->
            filter is_duplicate closing = [] /\ inserted_rows closing = []).
  { intros closing [->| ->]; split; reflexivity. }
  unfold create_nationalmap_mbtiles.
  destruct (zoom_loop tan asinh env key (range min_zoom (max_zoom + 1))
              (open_archive file min_zoom max_zoom)) as [st [|]];
    cbn [fst archive events processed] in *.
  - split; [exact Hdup|]. split; [symmetry; exact Hcount|].
    exists q. rewrite <- Hwork, Hc, Hq, app_assoc. reflexivity.
  - rewrite filter_app, inserted_rows_app, Hdup. cbn. rewrite app_nil_r.
    split; [reflexivity|]. split; [symmetry; exact Hcount|].
    exists q. rewrite <- Hwork, Hc, Hq, app_assoc. reflexivity.
Qed.

(** X12: in a run the duplicate branch of the guarded INSERT is never
    taken, and the printed total is the number of rows inserted. *)
Theorem total_counts_the_inserts :
  forall tan asinh env file key min_zoom max_zoom,
    filter is_duplicate
      (events (create_nationalmap_mbtiles tan asinh env file key min_zoom max_zoom)) = []
    /\ processed (create_nationalmap_mbtiles tan asinh env file key min_zoom max_zoom)
       = Z.of_nat (List.length
           (inserted_rows
              (events (create_nationalmap_mbtiles tan asinh env file key
                         min_zoom max_zoom)))).
Proof.
  intros. destruct (run_inserts tan asinh env file key min_zoom max_zoom) as (H1 & H2 & _).
  auto.
Qed.


(** ** The orchestrator: what is durable *)

Lemma upto_last_commit_none : forall l,
  existsb is_commit l = false -> upto_last_commit l = [].
Proof.
  intros [|e l] H; [reflexivity|]. cbn [existsb] in H. cbn [upto_last_commit].
  rewrite H. reflexivity.
Qed.

Lemma upto_last_commit_after : forall l1 l2,
  existsb is_commit l2 = false -> upto_last_commit (l1 ++ l2) = upto_last_commit l1.
Proof.
  induction l1 as [|e l1 IH]; intros l2 H; [apply upto_last_commit_none, H|].
  cbn [app upto_last_commit]. rewrite existsb_app, H, orb_false_r, IH by exact H.
  reflexivity.
Qed.

Lemma upto_last_commit_all : forall l,
  upto_last_commit (l ++ [SqlCommit]) = l ++ [SqlCommit].
Proof.
  induction l as [|e l IH]; [reflexivity|].
  cbn [app upto_last_commit]. rewrite existsb_app. cbn [existsb is_commit].
  rewrite !orb_true_r, IH. reflexivity.
Qed.

Lemma drain_queue_work_log : forall q cn,
  tiles (work (fst (drain_queue q cn)))
  = tiles (work cn) ++ map row_tile (inserted_rows (snd (drain_queue q cn)))
  /\ existsb is_commit (snd (drain_queue q cn)) = false.
Proof.
  induction q as [|[[[z x] r] d] q IH]; intros cn.
  - cbn. rewrite app_nil_r. auto.
  - rewrite drain_queue_cons. cbn [fst snd].
    destruct (IH (fst (insert_tile cn (z, x, r, d)))) as [Hw Hc].
    destruct (insert_tile_work cn z x r d) as (_ & _ & Hw0).
    rewrite Hw, Hw0, insert_tile_log, inserted_rows_app, existsb_app, Hc, map_app.
    destruct (select_tile (work cn) z x r); cbn; rewrite <- ?app_assoc; auto.
Qed.

Lemma fetch_events_commit_nothing : forall l,
  (forall e, In e l -> event_tile e <> None) -> existsb is_commit l = false.
Proof.
  induction l as [|e l IH]; intros H; [reflexivity|].
  cbn [existsb]. rewrite IH by (intros e' He'; apply H; right; exact He').
  assert (He := H e (or_introl eq_refl)).
  destruct e; cbn in *; auto. contradiction He. reflexivity.
Qed.

(** After a zoom level the committed rows are those inserted up to the last
    commit, and the connection sees all the inserted ones. *)
Lemma as_completed_durable :
  forall env zoom rows0 futures running n successful_tiles cn done,
    (List.length running <= List.length futures)%nat ->
    (forall w e, In w running -> In e (fetch_log w) -> event_tile e <> None) ->
    tiles (disk cn) = rows0 ++ map row_tile (inserted_rows (upto_last_commit done)) ->
    tiles (work cn) = rows0 ++ map row_tile (inserted_rows done) ->
    tiles (disk (fst (fst (as_completed env zoom futures running n successful_tiles cn done))))
    = rows0 ++ map row_tile
                 (inserted_rows
                    (upto_last_commit
                       (snd (fst (as_completed env zoom futures running n
                                    successful_tiles cn done)))))
    /\ tiles (work (fst (fst (as_completed env zoom futures running n
                                successful_tiles cn done))))
       = rows0 ++ map row_tile
                    (inserted_rows
                       (snd (fst (as_completed env zoom futures running n
                                    successful_tiles cn done)))).
Proof.
  intros env zoom rows0 futures running n successful_tiles cn done Hlen Hfetch Hd Hw.
  assert (H := as_completed_induction env zoom
     (fun rest cn' log' =>
        (forall w e, In w rest -> In e (fetch_log w) -> event_tile e <> None)
        /\ tiles (disk cn') = rows0 ++ map row_tile (inserted_rows (upto_last_commit log'))
        /\ tiles (work cn') = rows0 ++ map row_tile (inserted_rows log'))).
  cbn beta in H.
  destruct H with (futures := futures) (running := running) (n := n)
                  (successful_tiles := successful_tiles) (cn := cn) (done := done)
    as (_ & Hd' & Hw'); auto.
  intros batch rest cn0 done0 committed (Hfetch' & Hd0 & Hw0).
  split; [intros w e Hin; apply Hfetch'; apply in_or_app; right; exact Hin|].
  assert (Hf : forall e, In e (flat_map fetch_log batch) -> event_tile e <> None).
  { intros e He. apply in_flat_map in He. destruct He as (w & Hin & He).
    apply (Hfetch' w e); [apply in_or_app; left; exact Hin|exact He]. }
  destruct (fetch_events_store_nothing _ Hf) as [Hf1 _].
  assert (Hf2 := fetch_events_commit_nothing _ Hf).
  destruct (drain_queue_work_log (queue_of batch) cn0) as [Hwq Hcq].
  destruct (drain_queue_appends (queue_of batch) cn0) as (_ & _ & Hdq & _).
  assert (Hwork : tiles (work (fst (drain_queue (queue_of batch) cn0)))
                  = rows0 ++ map row_tile
                               (inserted_rows
                                  (done0 ++ flat_map fetch_log batch
                                         ++ snd (drain_queue (queue_of batch) cn0)))).
  { rewrite Hwq, Hw0, !inserted_rows_app, Hf1, !map_app. cbn [map app].
    rewrite <- app_assoc. reflexivity. }
  destruct committed.
  - rewrite !app_assoc, upto_last_commit_all, <- !app_assoc.
    rewrite !inserted_rows_app. cbn [inserted_rows flat_map]. rewrite !app_nil_r.
    cbn [commit disk work]. rewrite <- !inserted_rows_app. auto.
  - rewrite app_nil_r. split; [|exact Hwork].
    rewrite Hdq, upto_last_commit_after; [exact Hd0|].
    rewrite existsb_app, Hf2, Hcq. reflexivity.
Qed.

Lemma zoom_loop_durable : forall tan asinh env key rows0 zs st,
  tiles (disk (conn st))
  = rows0 ++ map row_tile (inserted_rows (upto_last_commit (log st))) ->
  tiles (work (conn st)) = rows0 ++ map row_tile (inserted_rows (log st)) ->
  tiles (disk (conn (fst (zoom_loop tan asinh env key zs st))))
  = rows0 ++ map row_tile
               (inserted_rows
                  (upto_last_commit (log (fst (zoom_loop tan asinh env key zs st))))).
Proof.
  intros tan asinh env key rows0.
  assert (Hboth : forall zs st,
    tiles (disk (conn st))
    = rows0 ++ map row_tile (inserted_rows (upto_last_commit (log st))) ->
    tiles (work (conn st)) = rows0 ++ map row_tile (inserted_rows (log st)) ->
    tiles (disk (conn (fst (zoom_loop tan asinh env key zs st))))
    = rows0 ++ map row_tile
                 (inserted_rows
                    (upto_last_commit (log (fst (zoom_loop tan asinh env key zs st)))))
    /\ tiles (work (conn (fst (zoom_loop tan asinh env key zs st))))
       = rows0 ++ map row_tile
                    (inserted_rows (log (fst (zoom_loop tan asinh env key zs st))))).
  { induction zs as [|zoom zs IH]; intros st Hd Hw; [cbn; auto|].
    cbn [zoom_loop].
    destruct (tile_rect tan asinh zoom) as [rect|]; [|cbn; auto].
    destruct (partition _ _) as [existing tile_list].
    destruct (Z.of_nat (List.length tile_list) =? 0); [auto|].
    set (futures := map _ _).
    destruct (as_completed_durable env zoom rows0 futures futures 0 0 (conn st) (log st)
                (Nat.le_refl _)) as [Hd' Hw']; auto.
    - intros w e Hin He. subst futures. apply in_map_iff in Hin.
      destruct Hin as ([[[z x] y] k] & <- & _).
      apply download_tile_worker_log in He. rewrite He. discriminate.
    - destruct (as_completed env zoom futures futures 0 0 (conn st) (log st))
        as [[cn done] successful_tiles].
      cbn [fst snd] in *. apply IH; assumption. }
  intros zs st Hd Hw. apply (Hboth zs st Hd Hw).
Qed.

(** X14: the tile rows of the archive a run leaves are exactly the rows of
    the file it started from followed by the rows inserted up to the last
    commit of the run, in insertion order; rows inserted after the last
    commit (all of them when no commit was made) are not in the file. *)
Theorem archive_holds_what_was_committed :
  forall tan asinh env file key min_zoom max_zoom,
    tiles (archive (create_nationalmap_mbtiles tan asinh env file key min_zoom max_zoom))
    = tiles (initial_database file)
        ++ map row_tile
             (inserted_rows
                (upto_last_commit
                   (events (create_nationalmap_mbtiles tan asinh env file key
                              min_zoom max_zoom)))).
Proof.
  intros tan asinh env file key min_zoom max_zoom.
  destruct (run_archive tan asinh env file key min_zoom max_zoom)
    as (-> & closing & -> & Hclosing).
  rewrite upto_last_commit_after by (destruct Hclosing as [->| ->]; reflexivity).
  destruct (open_archive_tiles file min_zoom max_zoom) as [Hw0 Hd0].
  destruct (open_archive_inserts file min_zoom max_zoom) as [_ Hi0].
  apply zoom_loop_durable.
  - rewrite Hd0, upto_last_commit_none; [cbn; rewrite app_nil_r; reflexivity|].
    destruct file; reflexivity.
  - rewrite Hw0, Hi0. cbn. rewrite app_nil_r. reflexivity.
Qed.
